(** * canvas2: viewport / selection geometry and embedded-DPI parsers

    A shallow embedding of the image editor component (the [ImageEditor]
    function component and its two helpers [parsePNG_DPI] and
    [parseJPEG_EXIF_DPI]).

    Number model.  The geometry of the stage (positions, sizes, scales,
    offsets) is modelled over exact rationals ([Q], compared with [==]):
    [Math.round] is [floor (x + 1/2)], [Math.max], [Math.min] and [Math.abs]
    are [Qmax], [Qmin] and [Qabs].  NaN, the infinities and binary rounding
    are outside that model; statements whose truth depends on a division
    carry the hypothesis that the divisor is not zero.

    Two computations end in an integer that leaves the component and that
    depends on how a quotient is rounded in binary: the crop metadata sent by
    [exportCropped] and the resolution read from an Exif block.  These are
    modelled in binary64 arithmetic ([Float64], on the primitive floats),
    operation by operation as the source writes them, with NaN and the
    infinities.

    React model.  One render of the component is a value of [EditorState]
    (the [useState] cells).  Everything the component computes during a render
    ([displayedImageWidth], [baseX], the [clampOffset] closure, ...) is a
    function of that value, and an event handler is a function from the state
    of the render that created it to the next state. *)

From Stdlib Require Import QArith Qround Qminmax Qabs ZArith Lqa Lia.
From Stdlib Require Import List Bool String Ascii.
From Stdlib Require Strings.Byte.
From Stdlib Require PrimFloat FloatOps SpecFloat Uint63.
Import ListNotations.

(** ** JavaScript numbers *)

Module Num.
Open Scope Q_scope.

Definition ltb (a b : Q) : bool :=
  match a ?= b with Lt => true | _ => false end.

Definition gtb (a b : Q) : bool := ltb b a.

Definition Math_round (v : Q) : Z := Qfloor (v + (1 # 2)).
Definition Math_max (a b : Q) : Q := Qmax a b.
Definition Math_min (a b : Q) : Q := Qmin a b.
Definition Math_abs (a : Q) : Q := Qabs a.
End Num.

Import Num.

(** *** Binary64

    A [number] as the engine has it.  The arithmetic is that of the
    primitive floats (IEEE 754 binary64, round to nearest, ties to even). *)

Module Float64.
Import PrimFloat.
Local Open Scope Z_scope.

(** The double of an integer; exact below 2^53 in absolute value. *)
Definition ofInteger (n : Z) : float :=
  if n <? 0 then opp (of_uint63 (Uint63.of_Z (- n)))
  else of_uint63 (Uint63.of_Z n).

(** [Math.round(x)]: NaN, the infinities and the zeros are returned as
    they are; otherwise floor (x + 1/2), computed exactly, with the sign of
    [x] when the result is zero.  A finite double is (+/-) m * 2^e; with
    e >= 0 it is an integer already. *)
Definition Math_round (x : float) : float :=
  match FloatOps.Prim2SF x with
  | SpecFloat.S754_finite s m e =>
      if 0 <=? e then x else
      let v := if s then Z.neg m else Z.pos m in
      let z := (2 * v + 2 ^ (- e)) / 2 ^ (1 - e) in
      if z =? 0 then (if s then neg_zero else zero) else ofInteger z
  | _ => x
  end.

(** A number in a condition: false for 0, -0 and NaN. *)
Definition truthy (x : float) : bool :=
  negb (eqb x zero) && negb (is_nan x).

(** The integer that a finite double with an integral value stands for,
    which is what a template literal prints of it.  NaN and the
    infinities print as words; they are given 0 here, and do not arise
    where this is used (a quotient of two non-zero 32-bit integers, or its
    product with 2.54). *)
Definition toInteger (x : float) : Z :=
  match FloatOps.Prim2SF x with
  | SpecFloat.S754_finite s m e =>
      let v := if s then Z.neg m else Z.pos m in
      if 0 <=? e then v * 2 ^ e else v / 2 ^ (- e)
  | _ => 0
  end.
End Float64.

(** ** Data *)

Module Point.
Record t : Set := mk { x : Q; y : Q }.
End Point.

Module Selection.
(** [useState({ x: 50, y: 50, width: 300, height: 300 })] *)
Record t : Set := mk { x : Q; y : Q; width : Q; height : Q }.
End Selection.

Module Box.
(** The box handed to [boundBoxFunc] by the transformer. *)
Record t : Set := mk { x : Q; y : Q; width : Q; height : Q; rotation : Q }.
End Box.

Record HTMLImageElement : Set :=
  { naturalWidth : Q; naturalHeight : Q }.

Record EditorState : Set :=
  { stageWidth : Q;
    stageHeight : Q;
    imgElement : option HTMLImageElement;
    imageScale : Q;
    imageOffset : Point.t;
    selection : Selection.t;
    keepRatio : bool;
    aspect : string }.

Definition setImageScale (v : Q) (st : EditorState) : EditorState :=
  {| stageWidth := stageWidth st; stageHeight := stageHeight st;
     imgElement := imgElement st; imageScale := v;
     imageOffset := imageOffset st; selection := selection st;
     keepRatio := keepRatio st; aspect := aspect st |}.

Definition setImageOffset (v : Point.t) (st : EditorState) : EditorState :=
  {| stageWidth := stageWidth st; stageHeight := stageHeight st;
     imgElement := imgElement st; imageScale := imageScale st;
     imageOffset := v; selection := selection st;
     keepRatio := keepRatio st; aspect := aspect st |}.

Definition setSelection (v : Selection.t) (st : EditorState) : EditorState :=
  {| stageWidth := stageWidth st; stageHeight := stageHeight st;
     imgElement := imgElement st; imageScale := imageScale st;
     imageOffset := imageOffset st; selection := v;
     keepRatio := keepRatio st; aspect := aspect st |}.

(** ** Constants *)

Open Scope Q_scope.
Open Scope string_scope.

Definition ASPECT_RATIOS : list (string * Q) :=
  [ ("1:1", 1); ("1:2", 1 # 2); ("2:3", 2 / 3); ("3:4", 3 # 4);
    ("4:5", 4 # 5); ("16:9", 16 / 9); ("3:2", 3 # 2); ("4:3", 4 / 3) ].

Definition DEFAULT_ASPECT : string := "1:1".
Definition MIN_SIZE : Q := 10.
Definition ZOOM_SCALE : Q := 105 # 100.
Definition MIN_ZOOM : Q := 2 # 10.
Definition MAX_ZOOM : Q := 3.
Definition DEFAULT_SELECTION_WIDTH : Q := 400.
Definition PADDING : Q := 40.

(** [table[key]]: the value stored under [key], if any. *)
Fixpoint lookup (table : list (string * Q)) (key : string) : option Q :=
  match table with
  | [] => None
  | (k, v) :: rest => if String.eqb k key then Some v else lookup rest key
  end.

(** [ASPECT_RATIOS[aspect] ?? 1] *)
Definition aspectRatio (name : string) : Q :=
  match lookup ASPECT_RATIOS name with
  | Some v => v
  | None => 1
  end.

(** ** Image geometry of one render *)

Definition baseDisplayWidth (st : EditorState) : Q := stageWidth st.

Definition displayedImageWidth (st : EditorState) : Q :=
  baseDisplayWidth st * imageScale st.

Definition displayedImageHeight (st : EditorState) : Q :=
  match imgElement st with
  | Some img => (naturalHeight img * displayedImageWidth st) / naturalWidth img
  | None => stageHeight st
  end.

Definition baseX (st : EditorState) : Q :=
  (stageWidth st - displayedImageWidth st) / 2.

Definition baseY (st : EditorState) : Q :=
  (stageHeight st - displayedImageHeight st) / 2.

Definition imageX (st : EditorState) : Q := baseX st + Point.x (imageOffset st).
Definition imageY (st : EditorState) : Q := baseY st + Point.y (imageOffset st).

(** ** Loading an image *)

(** The state of the first render: the initial values of the [useState]
    cells. *)
Definition initialState : EditorState :=
  {| stageWidth := 800; stageHeight := 600;
     imgElement := None;
     imageScale := 1; imageOffset := {| Point.x := 0; Point.y := 0 |};
     selection := {| Selection.x := 50; Selection.y := 50;
                     Selection.width := 300; Selection.height := 300 |};
     keepRatio := false; aspect := DEFAULT_ASPECT |}.

(** [img.onload] in [handleFileObject]. *)
Definition onload (img : HTMLImageElement) (st : EditorState) : EditorState :=
  let selectionWidth := Math_min DEFAULT_SELECTION_WIDTH (stageWidth st - PADDING) in
  let aspectRatio := aspectRatio (aspect st) in
  let selectionHeight := inject_Z (Math_round (selectionWidth / aspectRatio)) in
  {| stageWidth := stageWidth st; stageHeight := stageHeight st;
     imgElement := Some img;
     imageScale := 1; imageOffset := {| Point.x := 0; Point.y := 0 |};
     selection :=
       {| Selection.x := inject_Z (Math_round ((stageWidth st - selectionWidth) / 2));
          Selection.y := inject_Z (Math_round ((stageHeight st - selectionHeight) / 2));
          Selection.width := selectionWidth;
          Selection.height := selectionHeight |};
     keepRatio := keepRatio st; aspect := aspect st |}.

(** ** Geometry helpers *)

Definition clampOffset (st : EditorState) (off : Point.t) : Point.t :=
  match imgElement st with
  | None => off
  | Some _ =>
      let minX := stageWidth st - displayedImageWidth st in
      let maxX := 0 in
      let minY := stageHeight st - displayedImageHeight st in
      let maxY := 0 in
      let '(minX, maxX) :=
        if ltb (displayedImageWidth st) (stageWidth st)
        then let c := (stageWidth st - displayedImageWidth st) / 2 - baseX st in
             (c, c)
        else (minX, maxX) in
      let '(minY, maxY) :=
        if ltb (displayedImageHeight st) (stageHeight st)
        then let c := (stageHeight st - displayedImageHeight st) / 2 - baseY st in
             (c, c)
        else (minY, maxY) in
      {| Point.x := Math_max minX (Math_min maxX (Point.x off));
         Point.y := Math_max minY (Math_min maxY (Point.y off)) |}
  end.

Definition clampSelection (st : EditorState) (sel : Selection.t) : Selection.t :=
  let s := sel in
  let s := if ltb (Selection.x s) 0
           then {| Selection.x := 0; Selection.y := Selection.y s;
                   Selection.width := Selection.width s;
                   Selection.height := Selection.height s |}
           else s in
  let s := if ltb (Selection.y s) 0
           then {| Selection.x := Selection.x s; Selection.y := 0;
                   Selection.width := Selection.width s;
                   Selection.height := Selection.height s |}
           else s in
  let s := if gtb (Selection.x s + Selection.width s) (stageWidth st)
           then {| Selection.x := stageWidth st - Selection.width s;
                   Selection.y := Selection.y s;
                   Selection.width := Selection.width s;
                   Selection.height := Selection.height s |}
           else s in
  let s := if gtb (Selection.y s + Selection.height s) (stageHeight st)
           then {| Selection.x := Selection.x s;
                   Selection.y := stageHeight st - Selection.height s;
                   Selection.width := Selection.width s;
                   Selection.height := Selection.height s |}
           else s in
  s.

(** ** Zoom

    [clampOffset] is the closure of the render in which the handler was
    created: the bounds it applies are those of the state [st] before the
    zoom, as are [baseX] and [baseY]. *)

Record WheelEvent : Set :=
  { pointer : option Point.t;   (* stageRef.current.getPointerPosition() *)
    deltaY : Q }.               (* e.evt.deltaY *)

(** [Math.max(MIN_ZOOM, Math.min(MAX_ZOOM, newScale))] *)
Definition clampZoom (newScale : Q) : Q :=
  Math_max MIN_ZOOM (Math_min MAX_ZOOM newScale).

Definition imagePointBefore (st : EditorState) (mouse : Point.t) : Point.t :=
  let oldScale := imageScale st in
  {| Point.x := (Point.x mouse - baseX st - Point.x (imageOffset st)) / oldScale;
     Point.y := (Point.y mouse - baseY st - Point.y (imageOffset st)) / oldScale |}.

(** [{ x: newOffsetX, y: newOffsetY }], the offset before [clampOffset]. *)
Definition newOffset (st : EditorState) (mouse : Point.t) (clamped : Q) : Point.t :=
  {| Point.x := Point.x mouse - baseX st - Point.x (imagePointBefore st mouse) * clamped;
     Point.y := Point.y mouse - baseY st - Point.y (imagePointBefore st mouse) * clamped |}.

(** The part shared by the wheel handler and the numeric zoom input: clamp
    the requested scale, recompute the offset around [mouse], store both. *)
Definition zoomAt (st : EditorState) (mouse : Point.t) (newScale : Q) : EditorState :=
  let clamped := clampZoom newScale in
  setImageOffset (clampOffset st (newOffset st mouse clamped))
                 (setImageScale clamped st).

Definition handleWheel (st : EditorState) (e : WheelEvent) : EditorState :=
  match imgElement st, pointer e with
  | Some _, Some mouse =>
      let oldScale := imageScale st in
      let newScale := if gtb (deltaY e) 0
                      then oldScale / ZOOM_SCALE
                      else oldScale * ZOOM_SCALE in
      zoomAt st mouse newScale
  | _, _ => st
  end.

(** [onChange] of the numeric zoom input, for an entry that parses to [v]. *)
Definition handleZoomInput (st : EditorState) (v : Q) : EditorState :=
  let center := {| Point.x := stageWidth st / 2; Point.y := stageHeight st / 2 |} in
  zoomAt st center v.

(** [setImageOffset((prev) => clampOffset({ x: prev.x + dx, y: prev.y + dy }))] *)
Definition handleStageMouseMove (st : EditorState) (dx dy : Q) : EditorState :=
  let prev := imageOffset st in
  setImageOffset (clampOffset st {| Point.x := Point.x prev + dx;
                                    Point.y := Point.y prev + dy |}) st.

(** ** Export *)

(** The source rectangle that [exportCropped] hands to [drawImage], over
    exact rationals.  The integers of the crop metadata are in
    [Cropping.exportCropped], in binary64. *)
Record Export : Set :=
  { sx : Q; sy : Q; sWidth : Q; sHeight : Q }.

(** [None]: the early [return]s (no image, or no 2d context). *)
Definition exportCropped (st : EditorState) (hasContext : bool) : option Export :=
  let x := Selection.x (selection st) in
  let y := Selection.y (selection st) in
  let width := Selection.width (selection st) in
  let height := Selection.height (selection st) in
  match imgElement st with
  | None => None
  | Some img =>
      if negb hasContext then None else
      let sxOnDisplay := x - imageX st in
      let syOnDisplay := y - imageY st in
      let scaleNat := naturalWidth img / displayedImageWidth st in
      let sx := sxOnDisplay * scaleNat in
      let sy := syOnDisplay * scaleNat in
      let sWidth := width * scaleNat in
      let sHeight := height * scaleNat in
      Some {| sx := sx; sy := sy; sWidth := sWidth; sHeight := sHeight |}
  end.

(** ** Resizing the selection *)

Definition boundBoxFunc (st : EditorState) (oldBox newBox : Box.t) : Box.t :=
  if ltb (Math_abs (Box.width newBox)) MIN_SIZE
     || ltb (Math_abs (Box.height newBox)) MIN_SIZE
  then oldBox
  else if keepRatio st then
    let ar := aspectRatio (aspect st) in
    let widthChange := Math_abs (Box.width newBox - Box.width oldBox) in
    let heightChange := Math_abs (Box.height newBox - Box.height oldBox) in
    if gtb widthChange heightChange then
      let newHeight := Math_abs (Box.width newBox) / ar in
      {| Box.x := Box.x newBox; Box.y := Box.y newBox;
         Box.width := Box.width newBox;
         Box.height := if ltb (Box.height newBox) 0 then - newHeight else newHeight;
         Box.rotation := Box.rotation newBox |}
    else
      let newWidth := Math_abs (Box.height newBox) * ar in
      {| Box.x := Box.x newBox; Box.y := Box.y newBox;
         Box.width := if ltb (Box.width newBox) 0 then - newWidth else newWidth;
         Box.height := Box.height newBox;
         Box.rotation := Box.rotation newBox |}
  else newBox.

(** The rectangle node the transformer acts on ([rectRef.current]). *)
Module Node.
Record t : Set :=
  mk { x : Q; y : Q; width : Q; height : Q;
       scaleX : Q; scaleY : Q; rotation : Q }.
End Node.



(** [onDragEnd] of the selection rectangle, dropped at [(nx, ny)]. *)
Definition handleRectDragEnd (st : EditorState) (nx ny : Q) : EditorState :=
  setSelection
    (clampSelection st
       {| Selection.x := nx; Selection.y := ny;
          Selection.width := Selection.width (selection st);
          Selection.height := Selection.height (selection st) |})
    st.

(** The earlier variant of the component ([App.tsx]): its selection carries a
    rotation, and its transform-end handler is [onRectTransformEnd]. *)
Module App.
Record Selection : Set :=
  { x : Q; y : Q; width : Q; height : Q; rotation : Q }.

Definition clampSelection (stageWidth stageHeight : Q) (sel : Selection) : Selection :=
  let s := sel in
  let s := if ltb (x s) 0
           then {| x := 0; y := y s; width := width s; height := height s;
                   rotation := rotation s |}
           else s in
  let s := if ltb (y s) 0
           then {| x := x s; y := 0; width := width s; height := height s;
                   rotation := rotation s |}
           else s in
  let s := if gtb (x s + width s) stageWidth
           then {| x := stageWidth - width s; y := y s; width := width s;
                   height := height s; rotation := rotation s |}
           else s in
  let s := if gtb (y s + height s) stageHeight
           then {| x := x s; y := stageHeight - height s; width := width s;
                   height := height s; rotation := rotation s |}
           else s in
  s.

End App.

(** ** Embedded resolution metadata

    A [DataView] over the whole file is its list of bytes.  A read outside
    the view throws a [RangeError]; the parsers below are written in the
    error monad [outcome].  The two loops walk the buffer with an explicit
    fuel; [Diverge] is the result of a loop that runs out of it. *)

Module Dpi.
Import Stdlib.Strings.Byte.
Import PrimFloat.
Open Scope Z_scope.

Inductive exn : Set := RangeError.

Inductive outcome (A : Type) : Type :=
| Return (a : A)
| Throw (e : exn)
| Diverge.
Arguments Return {A} a.
Arguments Throw {A} e.
Arguments Diverge {A}.

Definition bind {A B : Type} (m : outcome A) (k : A -> outcome B) : outcome B :=
  match m with
  | Return a => k a
  | Throw e => Throw e
  | Diverge => Diverge
  end.

Notation "x <- m ;; k" := (bind m (fun x => k))
  (at level 61, m at next level, right associativity).

Definition DataView : Set := list byte.

Definition byteLength (dv : DataView) : Z := Z.of_nat (List.length dv).

Definition byteValue (b : byte) : Z := Z.of_N (to_N b).

(** The [n] bytes at [o], or a [RangeError]. *)
Definition bytesAt (dv : DataView) (o : Z) (n : nat) : outcome (list Z) :=
  if (0 <=? o) && (o + Z.of_nat n <=? byteLength dv)
  then Return (map byteValue (firstn n (skipn (Z.to_nat o) dv)))
  else Throw RangeError.

Definition bigEndian (bs : list Z) : Z :=
  fold_left (fun acc b => acc * 256 + b) bs 0.

Definition getUint8 (dv : DataView) (o : Z) : outcome Z :=
  bs <- bytesAt dv o 1 ;; Return (bigEndian bs).

Definition getUint16 (dv : DataView) (o : Z) (littleEndian : bool) : outcome Z :=
  bs <- bytesAt dv o 2 ;;
  Return (bigEndian (if littleEndian then rev bs else bs)).

Definition getUint32 (dv : DataView) (o : Z) (littleEndian : bool) : outcome Z :=
  bs <- bytesAt dv o 4 ;;
  Return (bigEndian (if littleEndian then rev bs else bs)).

(** What the parsers return besides [null]: the text ["unknown"], or
    [`${dpiX} × ${dpiY} DPI`]. *)
Inductive info : Set :=
| Unknown
| DPI (dpiX dpiY : Z).

Definition eqList (a b : list Z) : bool :=
  if list_eq_dec Z.eq_dec a b then true else false.

(** ["\x89PNG\r\n\x1a\n"] *)
Definition PNG_SIGNATURE : list Z := [137; 80; 78; 71; 13; 10; 26; 10].
(** ["pHYs"] *)
Definition pHYs : list Z := [112; 72; 89; 115].
(** ["Exif\0\0"] *)
Definition Exif00 : list Z := [69; 120; 105; 102; 0; 0].

Definition inchesPerMeter : Q := 254 # 10000.   (* 0.0254 *)

(** The [while (offset + 8 < dv.byteLength)] loop of [parsePNG_DPI]. *)
Fixpoint pngChunks (fuel : nat) (dv : DataView) (offset : Z)
  : outcome (option info) :=
  match fuel with
  | O => Diverge
  | S fuel =>
      if offset + 8 <? byteLength dv then
        length <- getUint32 dv offset false ;;
        t0 <- getUint8 dv (offset + 4) ;;
        t1 <- getUint8 dv (offset + 5) ;;
        t2 <- getUint8 dv (offset + 6) ;;
        t3 <- getUint8 dv (offset + 7) ;;
        if eqList [t0; t1; t2; t3] pHYs && (9 <=? length) then
          pxPerUnitX <- getUint32 dv (offset + 8) false ;;
          pxPerUnitY <- getUint32 dv (offset + 12) false ;;
          unit <- getUint8 dv (offset + 16) ;;
          if (unit =? 1) && negb (pxPerUnitX =? 0) && negb (pxPerUnitY =? 0) then
            let dpiX := Math_round (inject_Z pxPerUnitX * inchesPerMeter) in
            let dpiY := Math_round (inject_Z pxPerUnitY * inchesPerMeter) in
            Return (Some (DPI dpiX dpiY))
          else Return (Some Unknown)
        else pngChunks fuel dv (offset + 8 + length + 4)
      else Return None
  end.

Definition parsePNG_DPI (dv : DataView) : outcome (option info) :=
  if byteLength dv <? 24 then Return None else
  sig <- bytesAt dv 0 8 ;;
  if negb (eqList sig PNG_SIGNATURE) then Return None else
  let offset := 8 in
  pngChunks (List.length dv) dv offset.

(** The literal [2.54] of the Exif block: the double nearest to 2.54. *)
#[warnings="-inexact-float"]
Definition cmPerInch : PrimFloat.float := 2.54%float.

(** The locals of the IFD0 loop.  The two resolutions are doubles, as
    [num / den] makes them. *)
Record resolution : Set :=
  { xRes : option PrimFloat.float; yRes : option PrimFloat.float;
    resUnit : Z }.

(** One iteration of [for (let i = 0; i < entries; i++)]. *)
Definition ifdEntry (dv : DataView) (little : bool) (tiffOffset ifd0Offset : Z)
    (i : Z) (r : resolution) : outcome resolution :=
  let entryOffset := ifd0Offset + 2 + i * 12 in
  tag <- getUint16 dv entryOffset little ;;
  let valueOffset := entryOffset + 8 in
  r <- (if (tag =? 282) || (tag =? 283) then
          rel <- getUint32 dv valueOffset little ;;
          let valPtr := tiffOffset + rel in
          num <- getUint32 dv valPtr little ;;
          den <- getUint32 dv (valPtr + 4) little ;;
          let val := if den =? 0 then None
                     else Some (PrimFloat.div (Float64.ofInteger num)
                                              (Float64.ofInteger den)) in
          if tag =? 282
          then Return {| xRes := val; yRes := yRes r; resUnit := resUnit r |}
          else Return {| xRes := xRes r; yRes := val; resUnit := resUnit r |}
        else Return r) ;;
  if tag =? 296 then
    v <- getUint16 dv valueOffset little ;;
    Return {| xRes := xRes r; yRes := yRes r;
              resUnit := if v =? 0 then resUnit r else v |}
  else Return r.

Fixpoint ifdEntries (dv : DataView) (little : bool) (tiffOffset ifd0Offset : Z)
    (count : nat) (i : Z) (r : resolution) : outcome resolution :=
  match count with
  | O => Return r
  | S count =>
      r <- ifdEntry dv little tiffOffset ifd0Offset i r ;;
      ifdEntries dv little tiffOffset ifd0Offset count (i + 1) r
  end.

(** A [number | null] in a condition: neither [null], nor zero, nor
    NaN. *)
Definition truthy (v : option PrimFloat.float) : bool :=
  match v with
  | Some q => Float64.truthy q
  | None => false
  end.

Definition valueOf (v : option PrimFloat.float) : PrimFloat.float :=
  match v with Some q => q | None => PrimFloat.zero end.

(** [`${Math.round(v)}`] *)
Definition rounded (v : PrimFloat.float) : Z :=
  Float64.toInteger (Float64.Math_round v).

(** The body of the [try] block: [Return (Some _)] is its [return],
    [Return None] is falling out of it. *)
Definition exifBlock (dv : DataView) (exifStart : Z) : outcome (option info) :=
  let tiffOffset := exifStart + 6 in
  bom <- getUint16 dv tiffOffset false ;;
  let little := bom =? 18761 in
  rel <- getUint32 dv (tiffOffset + 4) little ;;
  let ifd0Offset := tiffOffset + rel in
  entries <- getUint16 dv ifd0Offset little ;;
  r <- ifdEntries dv little tiffOffset ifd0Offset (Z.to_nat entries) 0
         {| xRes := None; yRes := None; resUnit := 2 |} ;;
  if truthy (xRes r) && truthy (yRes r) then
    if resUnit r =? 3 then
      Return (Some (DPI (rounded (PrimFloat.mul (valueOf (xRes r)) cmPerInch))
                        (rounded (PrimFloat.mul (valueOf (yRes r)) cmPerInch))))
    else
      Return (Some (DPI (rounded (valueOf (xRes r)))
                        (rounded (valueOf (yRes r)))))
  else Return None.

(** The [while (pos + 4 < dv.byteLength)] loop of [parseJPEG_EXIF_DPI]. *)
Fixpoint jpegMarkers (fuel : nat) (dv : DataView) (pos : Z)
  : outcome (option info) :=
  match fuel with
  | O => Diverge
  | S fuel =>
      if pos + 4 <? byteLength dv then
        b <- getUint8 dv pos ;;
        if negb (b =? 255) then Return None else
        marker <- getUint8 dv (pos + 1) ;;
        len <- getUint16 dv (pos + 2) false ;;
        if marker =? 225 then
          let exifStart := pos + 4 in
          h0 <- getUint8 dv exifStart ;;
          h1 <- getUint8 dv (exifStart + 1) ;;
          h2 <- getUint8 dv (exifStart + 2) ;;
          h3 <- getUint8 dv (exifStart + 3) ;;
          h4 <- getUint8 dv (exifStart + 4) ;;
          h5 <- getUint8 dv (exifStart + 5) ;;
          if eqList [h0; h1; h2; h3; h4; h5] Exif00 then
            match exifBlock dv exifStart with
            | Return (Some text) => Return (Some text)
            | Return None => jpegMarkers fuel dv (pos + 2 + len)
            | Throw _ => Return None           (* catch (e) { return null; } *)
            | Diverge => Diverge
            end
          else jpegMarkers fuel dv (pos + 2 + len)
        else jpegMarkers fuel dv (pos + 2 + len)
      else Return None
  end.

Definition parseJPEG_EXIF_DPI (dv : DataView) : outcome (option info) :=
  let pos := 2 in
  b0 <- getUint8 dv 0 ;;
  if negb (b0 =? 255) then Return None else
  b1 <- getUint8 dv 1 ;;
  if negb (b1 =? 216) then Return None else
  jpegMarkers (List.length dv) dv pos.

(** The [.then(...)] / [.catch(...)] chain of [handleFileObject]: the text
    stored by [setDpiInfo]. *)
Definition dpiInfo (dv : DataView) : outcome info :=
  match parsePNG_DPI dv with
  | Return (Some pngDpi) => Return pngDpi
  | Return None =>
      match parseJPEG_EXIF_DPI dv with
      | Return (Some jpegDpi) => Return jpegDpi
      | Return None => Return Unknown
      | Throw _ => Return Unknown
      | Diverge => Diverge
      end
  | Throw _ => Return Unknown
  | Diverge => Diverge
  end.

(** Test data: a buffer from its byte values. *)
Definition buffer (values : list Z) : DataView :=
  map (fun v => match of_N (Z.to_N v) with Some b => b | None => x00 end) values.
End Dpi.

(** ** Vocabulary of the specification *)

Open Scope Q_scope.

(** An image drawn at [pos] with extent [shown] leaves no part of the stage
    extent [stage] uncovered. *)
Definition covers (stage pos shown : Q) : Prop :=
  pos <= 0 /\ stage <= pos + shown.

(** An image drawn at [pos] with extent [shown] has equal margins on both
    sides of the stage extent [stage]. *)
Definition centered (stage pos shown : Q) : Prop :=
  pos == stage - (pos + shown).

(** What the specification promises of [clampOffset] on one axis, for the
    clamped offset [off] of an image whose centered position is [base]. *)
Definition clamped_axis_covering (stage shown base off : Q) : Prop :=
  (shown < stage -> centered stage (base + off) shown) /\
  (~ shown < stage ->
     stage - shown <= off <= 0 /\ covers stage (base + off) shown).

(** The same without the covering clause. *)
Definition clamped_axis (stage shown base off : Q) : Prop :=
  (shown < stage -> off == 0 /\ centered stage (base + off) shown) /\
  (~ shown < stage -> stage - shown <= off <= 0).

Definition point_eq (p q : Point.t) : Prop :=
  Point.x p == Point.x q /\ Point.y p == Point.y q.

Definition selection_eq (a b : Selection.t) : Prop :=
  Selection.x a == Selection.x b /\ Selection.y a == Selection.y b /\
  Selection.width a == Selection.width b /\
  Selection.height a == Selection.height b.

(** The stage position at which the render [st] draws the point of the image
    whose coordinates, at scale 1, are [p]. *)
Definition stagePosition (st : EditorState) (off p : Point.t) : Point.t :=
  {| Point.x := baseX st + Point.x off + Point.x p * imageScale st;
     Point.y := baseY st + Point.y off + Point.y p * imageScale st |}.

(** ** Statements of the specification, and sample states *)

(** What the specification promises of [clampOffset], on both axes. *)
Definition clampOffset_promise (st : EditorState) (off : Point.t) : Prop :=
  let r := clampOffset st off in
  clamped_axis_covering (stageWidth st) (displayedImageWidth st) (baseX st) (Point.x r) /\
  clamped_axis_covering (stageHeight st) (displayedImageHeight st) (baseY st) (Point.y r).

(** A 800 x 600 image just loaded on the 800 x 600 stage. *)
Definition wheelStart : EditorState :=
  onload {| naturalWidth := 800; naturalHeight := 600 |} initialState.

(** A 800 x 600 image on the 800 x 600 stage, shown at twice the width of
    the stage. *)
Definition atScaleTwo : EditorState :=
  setImageScale 2 wheelStart.


(** The same image at scale 1.5, dragged to the left as far as it goes. *)
Definition pannedAtOneAndHalf : EditorState :=
  setImageOffset {| Point.x := -400; Point.y := 0 |}
    (setImageScale (3 # 2) wheelStart).

(** A 100 x 1000 image at scale 0.21, dragged up as far as it goes. *)
Definition tallImageNearMinimum : EditorState :=
  setImageOffset {| Point.x := 0; Point.y := -1080 |}
    (setImageScale (21 # 100)
       (onload {| naturalWidth := 100; naturalHeight := 1000 |} initialState)).

(** The resize contract in the words of the specification.  A box is
    rejected when a dimension of [newBox] is smaller, in absolute value, than
    [minSize]; without aspect lock [newBox] is accepted as it is; with aspect
    lock the axis with the larger absolute change drives, and the other
    dimension has the magnitude that makes width / height the aspect ratio
    and the sign it has in [newBox].  On a tie the words name no driving
    axis: either is accepted. *)
Inductive resize (oldBox newBox : Box.t) (aspectLocked : bool)
    (aspectRatio minSize : Q) : Box.t -> Prop :=
| resize_reject :
    Qabs (Box.width newBox) < minSize \/ Qabs (Box.height newBox) < minSize ->
    resize oldBox newBox aspectLocked aspectRatio minSize oldBox
| resize_free :
    minSize <= Qabs (Box.width newBox) ->
    minSize <= Qabs (Box.height newBox) ->
    aspectLocked = false ->
    resize oldBox newBox aspectLocked aspectRatio minSize newBox
| resize_width_drives (r : Box.t) :
    minSize <= Qabs (Box.width newBox) ->
    minSize <= Qabs (Box.height newBox) ->
    aspectLocked = true ->
    Qabs (Box.height newBox - Box.height oldBox)
      <= Qabs (Box.width newBox - Box.width oldBox) ->
    Box.x r = Box.x newBox -> Box.y r = Box.y newBox ->
    Box.rotation r = Box.rotation newBox ->
    Box.width r = Box.width newBox ->
    Qabs (Box.height r) == Qabs (Box.width newBox) / aspectRatio ->
    (Box.height r < 0 <-> Box.height newBox < 0) ->
    resize oldBox newBox aspectLocked aspectRatio minSize r
| resize_height_drives (r : Box.t) :
    minSize <= Qabs (Box.width newBox) ->
    minSize <= Qabs (Box.height newBox) ->
    aspectLocked = true ->
    Qabs (Box.width newBox - Box.width oldBox)
      <= Qabs (Box.height newBox - Box.height oldBox) ->
    Box.x r = Box.x newBox -> Box.y r = Box.y newBox ->
    Box.rotation r = Box.rotation newBox ->
    Box.height r = Box.height newBox ->
    Qabs (Box.width r) == Qabs (Box.height newBox) * aspectRatio ->
    (Box.width r < 0 <-> Box.width newBox < 0) ->
    resize oldBox newBox aspectLocked aspectRatio minSize r.

Definition box_eq (a b : Box.t) : Prop :=
  Box.x a == Box.x b /\ Box.y a == Box.y b /\
  Box.width a == Box.width b /\ Box.height a == Box.height b /\
  Box.rotation a == Box.rotation b.

(** A state with aspect lock on and the 16:9 ratio selected. *)
Definition lockedWide : EditorState :=
  {| stageWidth := 800; stageHeight := 600;
     imgElement := Some {| naturalWidth := 1600; naturalHeight := 1200 |};
     imageScale := 1; imageOffset := {| Point.x := 0; Point.y := 0 |};
     selection := {| Selection.x := 100; Selection.y := 100;
                     Selection.width := 200; Selection.height := 150 |};
     keepRatio := true; aspect := "16:9" |}.

(** ** Export, in binary64

    The part of a render that [exportCropped] reads, and [exportCropped]
    itself, with every number a double and every operation the one the source
    writes.  The canvas element, its pixels and the upload are not part of
    the model: the result is the source rectangle handed to [drawImage] and
    the object passed to [JSON.stringify]. *)

Module Cropping.
Import PrimFloat.
Local Open Scope float_scope.

Module Point.
Record t : Set := mk { x : float; y : float }.
End Point.

Module Selection.
Record t : Set := mk { x : float; y : float; width : float; height : float }.
End Selection.

Record HTMLImageElement : Set :=
  { naturalWidth : float; naturalHeight : float }.

Record EditorState : Set :=
  { stageWidth : float;
    stageHeight : float;
    imgElement : option HTMLImageElement;
    imageScale : float;
    imageOffset : Point.t;
    selection : Selection.t }.

Definition baseDisplayWidth (st : EditorState) : float := stageWidth st.

Definition displayedImageWidth (st : EditorState) : float :=
  baseDisplayWidth st * imageScale st.

Definition displayedImageHeight (st : EditorState) : float :=
  match imgElement st with
  | Some img => (naturalHeight img * displayedImageWidth st) / naturalWidth img
  | None => stageHeight st
  end.

Definition baseX (st : EditorState) : float :=
  (stageWidth st - displayedImageWidth st) / 2.

Definition baseY (st : EditorState) : float :=
  (stageHeight st - displayedImageHeight st) / 2.

Definition imageX (st : EditorState) : float := baseX st + Point.x (imageOffset st).
Definition imageY (st : EditorState) : float := baseY st + Point.y (imageOffset st).

(** The object given to [JSON.stringify], which writes a finite number
    in digits and NaN or an infinity as [null]. *)
Record CropMetadata : Set :=
  { originalWidth : float; originalHeight : float;
    cropX : float; cropY : float; cropWidth : float; cropHeight : float }.

Record Export : Set :=
  { sx : float; sy : float; sWidth : float; sHeight : float;
    metadata : CropMetadata }.

(** [None]: the early [return]s (no image, or no 2d context). *)
Definition exportCropped (st : EditorState) (hasContext : bool) : option Export :=
  let x := Selection.x (selection st) in
  let y := Selection.y (selection st) in
  let width := Selection.width (selection st) in
  let height := Selection.height (selection st) in
  match imgElement st with
  | None => None
  | Some img =>
      if negb hasContext then None else
      let sxOnDisplay := x - imageX st in
      let syOnDisplay := y - imageY st in
      let scaleNat := naturalWidth img / displayedImageWidth st in
      let sx := sxOnDisplay * scaleNat in
      let sy := syOnDisplay * scaleNat in
      let sWidth := width * scaleNat in
      let sHeight := height * scaleNat in
      Some {| sx := sx; sy := sy; sWidth := sWidth; sHeight := sHeight;
              metadata :=
                {| originalWidth := naturalWidth img;
                   originalHeight := naturalHeight img;
                   cropX := Float64.Math_round sx;
                   cropY := Float64.Math_round sy;
                   cropWidth := Float64.Math_round sWidth;
                   cropHeight := Float64.Math_round sHeight |} |}
  end.

(** The export mapper in the words of the specification, for the base
    position, the offset and the displayed width of a viewport. *)
Module Spec.
Record CropRegion : Set :=
  { sx : float; sy : float; sWidth : float; sHeight : float }.

End Spec.

Definition cropRegion (m : CropMetadata) : Spec.CropRegion :=
  {| Spec.sx := cropX m; Spec.sy := cropY m;
     Spec.sWidth := cropWidth m; Spec.sHeight := cropHeight m |}.

(** Stage 800 x 600 at scale 1 and offset (0, 0), a 1600 x 1200 image,
    the selection {x: 100, y: 100, width: 200, height: 150}. *)
Definition exportExample : EditorState :=
  {| stageWidth := 800; stageHeight := 600;
     imgElement := Some {| naturalWidth := 1600; naturalHeight := 1200 |};
     imageScale := 1; imageOffset := {| Point.x := 0; Point.y := 0 |};
     selection := {| Selection.x := 100; Selection.y := 100;
                     Selection.width := 200; Selection.height := 150 |} |}.

(** The same on a stage 500 high. *)
Definition lowerStage : EditorState :=
  {| stageWidth := 800; stageHeight := 500;
     imgElement := imgElement exportExample;
     imageScale := 1; imageOffset := imageOffset exportExample;
     selection := selection exportExample |}.

(** A 1170 x 2532 image as its loading leaves it on the 800 x 600 stage:
    scale 1, offset (0, 0), the selection {200, 100, 400, 400}. *)
Definition tallPhoto : EditorState :=
  {| stageWidth := 800; stageHeight := 600;
     imgElement := Some {| naturalWidth := 1170; naturalHeight := 2532 |};
     imageScale := 1; imageOffset := {| Point.x := 0; Point.y := 0 |};
     selection := {| Selection.x := 200; Selection.y := 100;
                     Selection.width := 400; Selection.height := 400 |} |}.

(** The example on a stage of width 0. *)
Definition noStage : EditorState :=
  {| stageWidth := 0; stageHeight := 600;
     imgElement := imgElement exportExample;
     imageScale := 1; imageOffset := imageOffset exportExample;
     selection := selection exportExample |}.
End Cropping.

(** Stage 800 x 600 at scale 1 and offset (0, 0), a 1600 x 1200 image, the
    selection {x: 100, y: 100, width: 200, height: 150}. *)
Definition exportExample : EditorState :=
  setSelection {| Selection.x := 100; Selection.y := 100;
                  Selection.width := 200; Selection.height := 150 |}
    (onload {| naturalWidth := 1600; naturalHeight := 1200 |} initialState).



Definition withoutRotation (s : App.Selection) : Selection.t :=
  {| Selection.x := App.x s; Selection.y := App.y s;
     Selection.width := App.width s; Selection.height := App.height s |}.




(** PNG buffers, as the specification of the parser speaks of them. *)
Module Png.
Import Dpi.
Open Scope Z_scope.

(** The length and the type of the chunk that starts at [offset]. *)
Definition chunkHeader (dv : DataView) (offset : Z) : outcome (Z * list Z) :=
  length <- getUint32 dv offset false ;;
  t0 <- getUint8 dv (offset + 4) ;;
  t1 <- getUint8 dv (offset + 5) ;;
  t2 <- getUint8 dv (offset + 6) ;;
  t3 <- getUint8 dv (offset + 7) ;;
  Return (length, [t0; t1; t2; t3]).

(** [firstPhys dv offset p]: in the sequence of chunks that starts at
    [offset], the first chunk of type pHYs starts at [p]. *)
Inductive firstPhys (dv : DataView) : Z -> Z -> Prop :=
| phys_here offset len :
    offset + 8 < byteLength dv ->
    chunkHeader dv offset = Return (len, pHYs) ->
    firstPhys dv offset offset
| phys_later offset len type p :
    offset + 8 < byteLength dv ->
    chunkHeader dv offset = Return (len, type) ->
    type <> pHYs ->
    firstPhys dv (offset + 8 + len + 4) p ->
    firstPhys dv offset p.

(** The text reported for a pHYs chunk with these fields. *)
Definition physText (pxPerUnitX pxPerUnitY unit : Z) : info :=
  if (unit =? 1) && negb (pxPerUnitX =? 0) && negb (pxPerUnitY =? 0)
  then DPI (Math_round (inject_Z pxPerUnitX * inchesPerMeter))
           (Math_round (inject_Z pxPerUnitY * inchesPerMeter))
  else Unknown.

(** Signature, a 13-byte IHDR chunk, a pHYs chunk of 2835 x 2835 pixels
    per meter. *)
Definition sample : DataView :=
  buffer ([137; 80; 78; 71; 13; 10; 26; 10] ++
          [0; 0; 0; 13; 73; 72; 68; 82;
           0; 0; 0; 1; 0; 0; 0; 1; 8; 2; 0; 0; 0; 144; 119; 83; 222] ++
          [0; 0; 0; 9; 112; 72; 89; 115;
           0; 0; 11; 19; 0; 0; 11; 19; 1; 0; 154; 156; 24]).

(** Signature and a pHYs chunk cut after its second field: 24 bytes. *)
Definition truncated : DataView :=
  buffer ([137; 80; 78; 71; 13; 10; 26; 10] ++
          [0; 0; 0; 9; 112; 72; 89; 115; 0; 0; 11; 19; 0; 0; 11; 19]).
End Png.

Module Jpeg.
Import Dpi.
Open Scope Z_scope.

(** SOI, then an APP1 marker whose segment stops after one byte. *)
Definition truncated : DataView :=
  buffer [255; 216; 255; 225; 0; 8; 69].
End Jpeg.

(** A call that comes back with a value: it neither throws nor runs on. *)
Definition returnsNormally {A : Type} (o : Dpi.outcome A) : Prop :=
  exists a, o = Dpi.Return a.

(** Both parsers come back with a value on the buffer [dv]. *)
Definition parsersReturn (dv : Dpi.DataView) : Prop :=
  returnsNormally (Dpi.parsePNG_DPI dv) /\
  returnsNormally (Dpi.parseJPEG_EXIF_DPI dv).

(** ** Further handlers of the component *)

Open Scope Q_scope.

Definition setAspect (v : string) (st : EditorState) : EditorState :=
  {| stageWidth := stageWidth st; stageHeight := stageHeight st;
     imgElement := imgElement st; imageScale := imageScale st;
     imageOffset := imageOffset st; selection := selection st;
     keepRatio := keepRatio st; aspect := v |}.

(** [onChange] of the aspect [select], for the option [nextAspect]. *)
Definition handleAspectChange (st : EditorState) (nextAspect : string) : EditorState :=
  let stageWidth := stageWidth st in
  let stageHeight := stageHeight st in
  let ar := aspectRatio nextAspect in
  let centerX := Selection.x (selection st) + Selection.width (selection st) / 2 in
  let centerY := Selection.y (selection st) + Selection.height (selection st) / 2 in
  let newWidth := Selection.width (selection st) in
  let newHeight := inject_Z (Math_round (newWidth / ar)) in
  let '(newWidth, newHeight) :=
    if gtb newHeight stageHeight
    then let newHeight := stageHeight - PADDING in
         (inject_Z (Math_round (newHeight * ar)), newHeight)
    else (newWidth, newHeight) in
  let '(newWidth, newHeight) :=
    if gtb newWidth stageWidth
    then let newWidth := stageWidth - PADDING in
         (newWidth, inject_Z (Math_round (newWidth / ar)))
    else (newWidth, newHeight) in
  let nx := Math_max 0 (Math_min (stageWidth - newWidth)
                          (inject_Z (Math_round (centerX - newWidth / 2)))) in
  let ny := Math_max 0 (Math_min (stageHeight - newHeight)
                          (inject_Z (Math_round (centerY - newHeight / 2)))) in
  setSelection {| Selection.x := nx; Selection.y := ny;
                  Selection.width := newWidth; Selection.height := newHeight |}
    (setAspect nextAspect st).

(** [onClick] of the Reset button. *)
Definition handleReset (st : EditorState) : EditorState :=
  let selectionWidth := Math_min DEFAULT_SELECTION_WIDTH (stageWidth st - PADDING) in
  let ar := aspectRatio (aspect st) in
  let selectionHeight := inject_Z (Math_round (selectionWidth / ar)) in
  setSelection
    {| Selection.x := inject_Z (Math_round ((stageWidth st - selectionWidth) / 2));
       Selection.y := inject_Z (Math_round ((stageHeight st - selectionHeight) / 2));
       Selection.width := selectionWidth;
       Selection.height := selectionHeight |}
    (setImageOffset {| Point.x := 0; Point.y := 0 |} (setImageScale 1 st)).

(** *** Panning with the mouse *)

(** [isPanning] and [panLast.current]. *)
Record PanState : Set :=
  { isPanning : bool; panLast : option Point.t }.

Inductive StageMouseEvent : Set :=
| MouseDown (onSelection : bool) (pos : option Point.t)
| MouseMove (pos : option Point.t)
| MouseUp.

(** [handleStageMouseDown], [handleStageMouseMove] (with the pointer position
    read from the stage) and [handleStageMouseUp]. *)
Definition stageMouse (s : EditorState * PanState) (e : StageMouseEvent)
  : EditorState * PanState :=
  let '(st, pan) := s in
  match e with
  | MouseDown onSelection pos =>
      if onSelection then (st, pan)
      else (st, {| isPanning := true;
                   panLast := match pos with
                              | Some p => Some p
                              | None => panLast pan
                              end |})
  | MouseMove pos =>
      match isPanning pan, panLast pan, pos with
      | true, Some last, Some pos =>
          let dx := Point.x pos - Point.x last in
          let dy := Point.y pos - Point.y last in
          (handleStageMouseMove st dx dy,
           {| isPanning := isPanning pan; panLast := Some pos |})
      | _, _, _ => (st, pan)
      end
  | MouseUp => (st, {| isPanning := false; panLast := None |})
  end.

Definition stageMouseEvents (s : EditorState * PanState) (es : list StageMouseEvent)
  : EditorState * PanState :=
  fold_left stageMouse es s.

(** *** The drop area *)

(** [dragCounter.current] and whether the area carries the class
    [uk-dragover]. *)
Record DropArea : Set :=
  { dragCounter : Z; dragover : bool }.

Inductive DragEvent : Set := DragEnter | DragOver | DragLeave | Drop.

Definition dropAreaEvent (a : DropArea) (e : DragEvent) : DropArea :=
  match e with
  | DragEnter => {| dragCounter := (dragCounter a + 1)%Z; dragover := true |}
  | DragOver => a
  | DragLeave =>
      let c := Z.max 0 (dragCounter a - 1) in
      {| dragCounter := c;
         dragover := if (c =? 0)%Z then false else dragover a |}
  | Drop => {| dragCounter := 0; dragover := false |}
  end.

Definition dropAreaEvents (a : DropArea) (es : list DragEvent) : DropArea :=
  fold_left dropAreaEvent es a.

(** *** File size *)

(** The text [`${v.toFixed(digits)} ${unit}`]: [fixed] is the integer whose
    decimal digits [toFixed] prints, the last [digits] of them after the
    point. *)
Record SizeText : Set :=
  { fixed : Z; digits : nat; unit : string }.

(** [v.toFixed(d)]: the integer n that makes n / 10^d closest to v, the
    larger one of two. *)
Definition toFixed (v : Q) (d : nat) : Z :=
  Qfloor (v * inject_Z (10 ^ Z.of_nat d) + (1 # 2)).

Definition units : list string := ["B"; "KB"; "MB"; "GB"].

(** The loop [while (v >= 1024 && i < units.length - 1) { v /= 1024; i++; }],
    with [room] = units.length - 1 - i. *)
Fixpoint scaleToUnit (room : nat) (v : Q) (i : nat) : Q * nat :=
  match room with
  | O => (v, i)
  | S room => if ltb v 1024 then (v, i) else scaleToUnit room (v / 1024) (S i)
  end.

Definition formatBytes (bytes : Q) : SizeText :=
  if Qeq_bool bytes 0 then {| fixed := 0; digits := 0; unit := "B" |} else
  let '(v, i) := scaleToUnit (List.length units - 1) bytes 0 in
  {| fixed := toFixed v (match i with O => 0 | S _ => 2 end);
     digits := match i with O => 0 | S _ => 2 end;
     unit := nth i units "" |}.

(** *** The earlier variant: end of a drag of the selection *)

Definition App_onDragEnd (stageWidth stageHeight : Q) (selection : App.Selection)
    (nx ny : Q) : App.Selection :=
  let newSel := {| App.x := nx; App.y := ny;
                   App.width := App.width selection;
                   App.height := App.height selection;
                   App.rotation := App.rotation selection |} in
  App.clampSelection stageWidth stageHeight newSel.

(** *** Zooming *)

(** [onChange] of the zoom slider: the value of the slider is stored as it
    is; the browser keeps it between the [min] and [max] of the input. *)
Definition handleZoomRange (st : EditorState) (v : Q) : EditorState :=
  let center := {| Point.x := stageWidth st / 2; Point.y := stageHeight st / 2 |} in
  setImageOffset (clampOffset st (newOffset st center v)) (setImageScale v st).

(** The three ways to zoom. *)
Inductive ZoomEvent : Set :=
| Wheel (e : WheelEvent)
| Slider (v : Q)
| NumberInput (v : Q).

Definition zoomEvent (st : EditorState) (ev : ZoomEvent) : EditorState :=
  match ev with
  | Wheel e => handleWheel st e
  | Slider v => handleZoomRange st v
  | NumberInput v => handleZoomInput st v
  end.

Definition zoomEvents (st : EditorState) (evs : list ZoomEvent) : EditorState :=
  fold_left zoomEvent evs st.

(** What the browser guarantees of an event: a slider with [min={MIN_ZOOM}]
    and [max={MAX_ZOOM}] reports a value between the two. *)
Definition fromBrowser (ev : ZoomEvent) : Prop :=
  match ev with
  | Slider v => MIN_ZOOM <= v <= MAX_ZOOM
  | _ => True
  end.

(** The stored offset respects, on both axes, the bounds that [clampOffset]
    applies in the render [st]. *)
Definition offsetInBounds (st : EditorState) : Prop :=
  clamped_axis (stageWidth st) (displayedImageWidth st) (baseX st)
    (Point.x (imageOffset st)) /\
  clamped_axis (stageHeight st) (displayedImageHeight st) (baseY st)
    (Point.y (imageOffset st)).

(** *** Buffers, for the properties of the parsers *)

Module Files.
Import Stdlib.Strings.Byte.
Import Dpi.
Open Scope Z_scope.

(** The first bytes of [dv] are [values]. *)
Definition startsWith (dv : DataView) (values : list Z) : Prop :=
  map byteValue (firstn (List.length values) dv) = values.

(** [chunks dv offset]: from [offset] on, [dv] is a sequence of chunks
    none of which is a pHYs chunk of length 9 or more, up to a point less
    than 9 bytes before the end of the buffer or beyond it. *)
Inductive chunksWithoutPhys (dv : DataView) : Z -> Prop :=
| chunks_end offset :
    byteLength dv <= offset + 8 ->
    chunksWithoutPhys dv offset
| chunks_skip offset len type :
    offset + 8 < byteLength dv ->
    Png.chunkHeader dv offset = Return (len, type) ->
    ~ (type = pHYs /\ 9 <= len) ->
    chunksWithoutPhys dv (offset + 8 + len + 4) ->
    chunksWithoutPhys dv offset.

(** [firstLongPhys dv offset p]: in the sequence of chunks that starts at
    [offset], the first pHYs chunk of length 9 or more starts at [p]. *)
Inductive firstLongPhys (dv : DataView) : Z -> Z -> Prop :=
| long_here offset len :
    offset + 8 < byteLength dv ->
    Png.chunkHeader dv offset = Return (len, pHYs) ->
    9 <= len ->
    firstLongPhys dv offset offset
| long_later offset len type p :
    offset + 8 < byteLength dv ->
    Png.chunkHeader dv offset = Return (len, type) ->
    ~ (type = pHYs /\ 9 <= len) ->
    firstLongPhys dv (offset + 8 + len + 4) p ->
    firstLongPhys dv offset p.

(** Signature, IHDR, IDAT and IEND chunks, no pHYs chunk. *)
Definition pngWithoutPhys : DataView :=
  buffer ([137; 80; 78; 71; 13; 10; 26; 10] ++
          [0; 0; 0; 13; 73; 72; 68; 82;
           0; 0; 0; 1; 0; 0; 0; 1; 8; 2; 0; 0; 0; 144; 119; 83; 222] ++
          [0; 0; 0; 2; 73; 68; 65; 84; 120; 1; 1; 2; 3; 4] ++
          [0; 0; 0; 0; 73; 69; 78; 68; 174; 66; 96; 130]).

(** Signature, a pHYs chunk of length 4, then a pHYs chunk of 3780 x 3780
    pixels per meter. *)
Definition pngWithShortPhys : DataView :=
  buffer ([137; 80; 78; 71; 13; 10; 26; 10] ++
          [0; 0; 0; 4; 112; 72; 89; 115; 0; 0; 11; 19; 1; 2; 3; 4] ++
          [0; 0; 0; 9; 112; 72; 89; 115;
           0; 0; 14; 196; 0; 0; 14; 196; 1; 0; 0; 0; 0]).

(** A JPEG file with one APP1 segment: the Exif header, a big-endian TIFF
    header, an IFD of three entries (XResolution, YResolution,
    ResolutionUnit) and the two rationals; 300/1 by 300/1 per inch. *)
Definition jpegWithExif : DataView :=
  buffer ([255; 216; 255; 225; 0; 74; 69; 120; 105; 102; 0; 0] ++
          [77; 77; 0; 42; 0; 0; 0; 8; 0; 3;
           1; 26; 0; 5; 0; 0; 0; 1; 0; 0; 0; 50;
           1; 27; 0; 5; 0; 0; 0; 1; 0; 0; 0; 58;
           1; 40; 0; 3; 0; 0; 0; 1; 0; 2; 0; 0;
           0; 0; 0; 0;
           0; 0; 1; 44; 0; 0; 0; 1;
           0; 0; 1; 44; 0; 0; 0; 1] ++
          [255; 217]).

(** A GIF header, padded. *)
Definition gif : DataView :=
  buffer [71; 73; 70; 56; 57; 97; 1; 0; 1; 0; 128; 0; 0; 0; 0; 0;
          255; 255; 255; 33; 249; 4; 1; 0; 0; 0; 0; 44; 0; 0; 0; 0].








(** [den ? num / den : null], the quotient being that of the doubles. *)
Definition ratio (num den : Z) : option PrimFloat.float :=
  if den =? 0 then None
  else Some (PrimFloat.div (Float64.ofInteger num) (Float64.ofInteger den)).

(** What the TIFF block yields for the rationals xnum/xden and ynum/yden
    and the resolution unit [unit]: nothing when a denominator is 0 or a
    quotient is 0; otherwise the quotients, multiplied by 2.54 for the
    unit 3 (centimeters), and rounded. *)
Definition exifText (xnum xden ynum yden unit : Z) : option info :=
  match ratio xnum xden, ratio ynum yden with
  | Some xRes, Some yRes =>
      if Float64.truthy xRes && Float64.truthy yRes then
        if unit =? 3
        then Some (DPI (rounded (PrimFloat.mul xRes cmPerInch))
                       (rounded (PrimFloat.mul yRes cmPerInch)))
        else Some (DPI (rounded xRes) (rounded yRes))
      else None
  | _, _ => None
  end.
End Files.

(** * Properties *)

(** ** Comparison and clamping of numbers *)

Section NumFacts.
Variables a b : Q.

Lemma ltb_lt : ltb a b = true <-> a < b.
Proof.
  unfold ltb. rewrite Qlt_alt. destruct (a ?= b); split; congruence.
Qed.

Lemma ltb_ge : ltb a b = false <-> b <= a.
Proof.
  unfold ltb. rewrite Qle_alt, <- Qcompare_antisym.
  destruct (b ?= a); simpl; split; congruence.
Qed.

Lemma ltb_spec : reflect (a < b) (ltb a b).
Proof.
  destruct (ltb a b) eqn:E; constructor.
  - now apply ltb_lt.
  - apply ltb_ge in E. lra.
Qed.
End NumFacts.

Lemma gtb_spec (a b : Q) : reflect (b < a) (gtb a b).
Proof. unfold gtb. apply ltb_spec. Qed.

Lemma clamp_between (lo hi v : Q) :
  lo <= hi -> lo <= Math_max lo (Math_min hi v) <= hi.
Proof.
  intros Hle. unfold Math_max, Math_min. split.
  - apply Q.le_max_l.
  - apply Q.max_lub_iff. split; [exact Hle | apply Q.le_min_l].
Qed.

Lemma clamp_fixed (lo hi v : Q) :
  lo <= v <= hi -> Math_max lo (Math_min hi v) == v.
Proof.
  intros [Hlo Hhi]. unfold Math_max, Math_min.
  rewrite (Q.min_r hi v) by exact Hhi.
  apply Q.max_r. exact Hlo.
Qed.

Lemma clamp_point (c c' v : Q) : c == c' -> Math_max c (Math_min c' v) == c.
Proof.
  intros E. apply Qle_antisym.
  - unfold Math_max, Math_min. apply Q.max_lub_iff. split; [lra|].
    rewrite E. apply Q.le_min_l.
  - apply Q.le_max_l.
Qed.

Lemma clamp_compat (lo hi v lo' hi' v' : Q) :
  lo == lo' -> hi == hi' -> v == v' ->
  Math_max lo (Math_min hi v) == Math_max lo' (Math_min hi' v').
Proof.
  intros E1 E2 E3. unfold Math_max, Math_min. now rewrite E1, E2, E3.
Qed.

(** ** The offset clamp *)

Section ClampOffset.
Variable st : EditorState.
Variable img : HTMLImageElement.
Hypothesis loaded : imgElement st = Some img.
Variable off : Point.t.

Lemma clampOffset_x_small :
  displayedImageWidth st < stageWidth st ->
  Point.x (clampOffset st off) == 0.
Proof.
  intros Hlt. unfold clampOffset. rewrite loaded.
  destruct (ltb_spec (displayedImageWidth st) (stageWidth st)) as [_|Hn];
    [|contradiction].
  destruct (ltb (displayedImageHeight st) (stageHeight st)); simpl;
    (rewrite clamp_point; [unfold baseX; lra | reflexivity]).
Qed.

Lemma clampOffset_y_small :
  displayedImageHeight st < stageHeight st ->
  Point.y (clampOffset st off) == 0.
Proof.
  intros Hlt. unfold clampOffset. rewrite loaded.
  destruct (ltb_spec (displayedImageHeight st) (stageHeight st)) as [_|Hn];
    [|contradiction].
  destruct (ltb (displayedImageWidth st) (stageWidth st)); simpl;
    (rewrite clamp_point; [unfold baseY; lra | reflexivity]).
Qed.

Lemma clampOffset_x_large :
  ~ displayedImageWidth st < stageWidth st ->
  stageWidth st - displayedImageWidth st <= Point.x (clampOffset st off) <= 0.
Proof.
  intros Hge. unfold clampOffset. rewrite loaded.
  destruct (ltb_spec (displayedImageWidth st) (stageWidth st)) as [Hlt|_];
    [contradiction|].
  destruct (ltb (displayedImageHeight st) (stageHeight st)); simpl;
    apply clamp_between; lra.
Qed.

Lemma clampOffset_y_large :
  ~ displayedImageHeight st < stageHeight st ->
  stageHeight st - displayedImageHeight st <= Point.y (clampOffset st off) <= 0.
Proof.
  intros Hge. unfold clampOffset. rewrite loaded.
  destruct (ltb_spec (displayedImageHeight st) (stageHeight st)) as [Hlt|_];
    [contradiction|].
  destruct (ltb (displayedImageWidth st) (stageWidth st)); simpl;
    apply clamp_between; lra.
Qed.
End ClampOffset.

Lemma centered_at_base (stage shown off : Q) :
  off == 0 -> centered stage ((stage - shown) / 2 + off) shown.
Proof. unfold centered. intros ->. field. Qed.

(** For a loaded image, on each axis the offset returned by [clampOffset] is
    the centering offset 0, the image then having equal margins, whenever
    the displayed extent is smaller than the stage extent, and otherwise lies
    in [stageExtent - displayedExtent, 0]. *)
Lemma clampOffset_axes (st : EditorState) (img : HTMLImageElement) (off : Point.t) :
  imgElement st = Some img ->
  let r := clampOffset st off in
  clamped_axis (stageWidth st) (displayedImageWidth st) (baseX st) (Point.x r) /\
  clamped_axis (stageHeight st) (displayedImageHeight st) (baseY st) (Point.y r).
Proof.
  intros loaded r. subst r. split; split.
  - intros Hlt. pose proof (clampOffset_x_small st img loaded off Hlt) as E.
    split; [exact E | now apply centered_at_base].
  - now apply (clampOffset_x_large st img).
  - intros Hlt. pose proof (clampOffset_y_small st img loaded off Hlt) as E.
    split; [exact E | now apply centered_at_base].
  - now apply (clampOffset_y_large st img).
Qed.

(** C2 (the code at a failing input): stage 800 x 600, image 800 x 600 at
    scale 2, the background dragged 800 to the left from offset (0, 0).  The
    displayed width 1600 is not smaller than the stage width and the clamped
    offset -800 lies in [800 - 1600, 0]; the image is then drawn from -1200
    to 400 and leaves the right half of the stage uncovered. *)
Theorem clampOffset_leaves_stage_uncovered :
  let st := handleStageMouseMove atScaleTwo (-800) 0 in
  let off := imageOffset st in
  point_eq off (clampOffset atScaleTwo {| Point.x := 0 + -800; Point.y := 0 + 0 |}) /\
  ~ displayedImageWidth st < stageWidth st /\
  stageWidth st - displayedImageWidth st <= Point.x off <= 0 /\
  imageX st == -1200 /\
  imageX st + displayedImageWidth st == 400 /\
  ~ covers (stageWidth st) (imageX st) (displayedImageWidth st) /\
  ~ clampOffset_promise atScaleTwo {| Point.x := 0 + -800; Point.y := 0 + 0 |}.
Proof.
  cbv zeta. repeat split; try (vm_compute; reflexivity);
    try (vm_compute; discriminate).
  - intros [_ Hc]. revert Hc. vm_compute. intros Hc. apply Hc. reflexivity.
  - intros [[_ Hx] _]. destruct Hx as [_ [_ Hc]].
    + vm_compute. discriminate.
    + revert Hc. vm_compute. intros Hc. apply Hc. reflexivity.
Qed.

(** ** The selection clamp *)

Ltac branch_on_test :=
  match goal with
  | |- context [if ltb ?a ?b then _ else _] =>
      lazymatch a with
      | context [if _ then _ else _] => fail
      | _ => destruct (ltb_spec a b)
      end
  | |- context [if gtb ?a ?b then _ else _] =>
      lazymatch a with
      | context [if _ then _ else _] => fail
      | _ => destruct (gtb_spec a b)
      end
  end.

(** C6: for a selection no wider and no taller than the stage,
    [clampSelection] keeps the width and the height and returns a position
    with x in [0, stageWidth - width] and y in [0, stageHeight - height]; the
    rectangle returned lies inside the stage. *)
Theorem clampSelection_within_stage (st : EditorState) (sel : Selection.t) :
  Selection.width sel <= stageWidth st ->
  Selection.height sel <= stageHeight st ->
  let r := clampSelection st sel in
  Selection.width r = Selection.width sel /\
  Selection.height r = Selection.height sel /\
  0 <= Selection.x r <= stageWidth st - Selection.width sel /\
  0 <= Selection.y r <= stageHeight st - Selection.height sel /\
  Selection.x r + Selection.width r <= stageWidth st /\
  Selection.y r + Selection.height r <= stageHeight st.
Proof.
  destruct sel as [sx sy sw sh]. cbn [Selection.width Selection.height].
  intros Hw Hh. unfold clampSelection.
  repeat (branch_on_test;
          cbn [Selection.x Selection.y Selection.width Selection.height] in *);
    repeat split; lra.
Qed.

Lemma clampSelection_within_stage_witness :
  (300 <= stageWidth atScaleTwo /\ 200 <= stageHeight atScaleTwo) /\
  let r := clampSelection atScaleTwo
             {| Selection.x := 700; Selection.y := -20;
                Selection.width := 300; Selection.height := 200 |} in
  Selection.width r = 300 /\ Selection.height r = 200 /\
  0 <= Selection.x r <= stageWidth atScaleTwo - 300 /\
  0 <= Selection.y r <= stageHeight atScaleTwo - 200 /\
  Selection.x r + Selection.width r <= stageWidth atScaleTwo /\
  Selection.y r + Selection.height r <= stageHeight atScaleTwo.
Proof.
  split.
  - split; vm_compute; discriminate.
  - apply (clampSelection_within_stage atScaleTwo
             {| Selection.x := 700; Selection.y := -20;
                Selection.width := 300; Selection.height := 200 |});
      vm_compute; discriminate.
Defined.

(** ** Zoom *)

Lemma clampZoom_range (s : Q) : MIN_ZOOM <= clampZoom s <= MAX_ZOOM.
Proof. apply clamp_between. unfold MIN_ZOOM, MAX_ZOOM. lra. Qed.

Lemma clampZoom_positive (s : Q) : 0 < clampZoom s.
Proof. pose proof (clampZoom_range s). unfold MIN_ZOOM in *. lra. Qed.

Lemma clampZoom_idempotent (s : Q) : clampZoom (clampZoom s) == clampZoom s.
Proof. apply clamp_fixed. apply clampZoom_range. Qed.

Lemma zoomAt_scale (st : EditorState) (mouse : Point.t) (s : Q) :
  imageScale (zoomAt st mouse s) = clampZoom s.
Proof. reflexivity. Qed.

(** The offset computed by the handler keeps the point under the pointer
    where it is as long as the image is placed with the base of the render
    that ran the handler. *)
Lemma newOffset_anchor_old_base (st : EditorState) (mouse : Point.t) (c : Q) :
  ~ imageScale st == 0 ->
  baseX st + Point.x (newOffset st mouse c)
    + Point.x (imagePointBefore st mouse) * c == Point.x mouse.
Proof.
  intros Hs. unfold newOffset, imagePointBefore. simpl. field. exact Hs.
Qed.

(** The next render places the image with the base of the new scale: the
    point under the pointer moves by half the change of the displayed
    width. *)
Lemma newOffset_anchor_new_base (st : EditorState) (mouse : Point.t) (c : Q) :
  ~ imageScale st == 0 ->
  Point.x (stagePosition (setImageScale c st) (newOffset st mouse c)
             (imagePointBefore st mouse))
    == Point.x mouse + stageWidth st * (imageScale st - c) / 2.
Proof.
  intros Hs. unfold stagePosition, newOffset, imagePointBefore, baseX,
    displayedImageWidth, baseDisplayWidth. simpl.
  field. exact Hs.
Qed.

(** C1 (the code at a failing input): stage 800 x 600, image 800 x 600 at
    scale 1 and offset (0, 0), a wheel turn towards the user with the pointer
    at (0, 0).  The scale becomes 1.05, the requested scale clamped into
    [0.2, 3]; the offset before [clampOffset] is (0, 0); the point of the
    image that was under the pointer is then drawn at (-20, -15), not at the
    pointer. *)
Theorem handleWheel_moves_anchor :
  let mouse := {| Point.x := 0; Point.y := 0 |} in
  let e := {| pointer := Some mouse; deltaY := -100 |} in
  let st' := handleWheel wheelStart e in
  let off := newOffset wheelStart mouse (imageScale st') in
  let p := imagePointBefore wheelStart mouse in
  imageScale st' == clampZoom (imageScale wheelStart * ZOOM_SCALE) /\
  imageScale st' == 105 # 100 /\
  point_eq off {| Point.x := 0; Point.y := 0 |} /\
  point_eq (imageOffset st') off /\
  point_eq (stagePosition wheelStart (imageOffset wheelStart) p) mouse /\
  point_eq (stagePosition st' off p) {| Point.x := -20; Point.y := -15 |} /\
  ~ point_eq (stagePosition st' off p) mouse.
Proof.
  cbv zeta. repeat split; try (vm_compute; reflexivity).
  intros [Hx _]. revert Hx. vm_compute. discriminate.
Qed.

Lemma clampOffset_compat (st : EditorState) (p q : Point.t) :
  point_eq p q -> point_eq (clampOffset st p) (clampOffset st q).
Proof.
  intros [Ex Ey]. unfold clampOffset.
  destruct (imgElement st); [|split; assumption].
  destruct (ltb (displayedImageWidth st) (stageWidth st));
    destruct (ltb (displayedImageHeight st) (stageHeight st));
    split; simpl; apply clamp_compat; try reflexivity; assumption.
Qed.

(** Clamping twice in one render changes nothing. *)
Lemma clampOffset_idempotent (st : EditorState) (off : Point.t) :
  point_eq (clampOffset st (clampOffset st off)) (clampOffset st off).
Proof.
  unfold clampOffset.
  destruct (imgElement st); [|split; reflexivity].
  destruct (ltb_spec (displayedImageWidth st) (stageWidth st));
    destruct (ltb_spec (displayedImageHeight st) (stageHeight st));
    split; simpl; apply clamp_fixed; apply clamp_between; lra.
Qed.

(** Zooming again to the scale just set recomputes the offset that is
    already stored; what the second application does to it is to clamp it
    with the bounds of the new scale. *)
Lemma zoomAt_again (st : EditorState) (mouse : Point.t) (s : Q) :
  let st1 := zoomAt st mouse s in
  let st2 := zoomAt st1 mouse s in
  imageScale st2 = imageScale st1 /\
  point_eq (imageOffset st2) (clampOffset st1 (imageOffset st1)).
Proof.
  cbv zeta. split; [reflexivity|].
  change (imageOffset (zoomAt (zoomAt st mouse s) mouse s))
    with (clampOffset (zoomAt st mouse s)
            (newOffset (zoomAt st mouse s) mouse (clampZoom s))).
  apply clampOffset_compat.
  pose proof (clampZoom_positive s) as Hpos.
  unfold point_eq, newOffset, imagePointBefore.
  rewrite zoomAt_scale. simpl.
  split; field; lra.
Qed.

(** C8 (the code at two failing inputs).  First, the numeric zoom input:
    stage 800 x 600, image 800 x 600 at scale 1.5 panned to offset (-400, 0);
    entering 1 gives scale 1 and offset (-200/3, 0), entering 1 again gives
    offset (0, 0).  Second, the wheel at the minimum scale: a 100 x 1000
    image at scale 0.21 panned to (0, -1080), the pointer at (400, 0); a
    wheel turn away from the user gives scale 0.2 and offset (0, -7020/7),
    the next one, whose target is again 0.2, gives offset (0, -1000). *)
Theorem zoom_twice_drifts :
  (let once := handleZoomInput pannedAtOneAndHalf 1 in
   let twice := handleZoomInput once 1 in
   imageScale once == 1 /\ imageScale twice == 1 /\
   point_eq (imageOffset once) {| Point.x := -200 # 3; Point.y := 0 |} /\
   point_eq (imageOffset twice) {| Point.x := 0; Point.y := 0 |} /\
   ~ point_eq (imageOffset twice) (imageOffset once)) /\
  (let e := {| pointer := Some {| Point.x := 400; Point.y := 0 |};
               deltaY := 100 |} in
   let once := handleWheel tallImageNearMinimum e in
   let twice := handleWheel once e in
   imageScale once == MIN_ZOOM /\ imageScale twice == MIN_ZOOM /\
   point_eq (imageOffset once) {| Point.x := 0; Point.y := -7020 # 7 |} /\
   point_eq (imageOffset twice) {| Point.x := 0; Point.y := -1000 |} /\
   ~ point_eq (imageOffset twice) (imageOffset once)).
Proof.
  cbv zeta. split.
  - repeat split; try (vm_compute; reflexivity).
    intros [Hx _]. revert Hx. vm_compute. discriminate.
  - repeat split; try (vm_compute; reflexivity).
    intros [_ Hy]. revert Hy. vm_compute. discriminate.
Qed.

(** The states used above arise from a freshly loaded image by entering a
    zoom value and dragging the background. *)
Lemma failing_states_reachable :
  (let st := handleZoomInput wheelStart 2 in
   imageScale st == imageScale atScaleTwo /\
   point_eq (imageOffset st) (imageOffset atScaleTwo)) /\
  (let st := handleStageMouseMove (handleZoomInput wheelStart (3 # 2)) (-400) 0 in
   imageScale st == imageScale pannedAtOneAndHalf /\
   point_eq (imageOffset st) (imageOffset pannedAtOneAndHalf)) /\
  (let loaded := onload {| naturalWidth := 100; naturalHeight := 1000 |}
                   initialState in
   let st := handleStageMouseMove (handleZoomInput loaded (21 # 100)) 0 (-1080) in
   imageScale st == imageScale tallImageNearMinimum /\
   point_eq (imageOffset st) (imageOffset tallImageNearMinimum)).
Proof.
  cbv zeta. repeat split; vm_compute; reflexivity.
Qed.

(** ** Resizing the selection *)

Lemma lookup_Forall (P : Q -> Prop) (table : list (string * Q)) (key : string) (v : Q) :
  Forall (fun entry => P (snd entry)) table ->
  lookup table key = Some v -> P v.
Proof.
  induction 1 as [|[k w] rest Hw _ IH]; simpl.
  - discriminate.
  - destruct (String.eqb k key); [intros [= <-]; exact Hw | exact IH].
Qed.

Lemma aspectRatio_positive (name : string) : 0 < aspectRatio name.
Proof.
  unfold aspectRatio.
  destruct (lookup ASPECT_RATIOS name) as [v|] eqn:E; [|reflexivity].
  apply (lookup_Forall (fun v => 0 < v) ASPECT_RATIOS name v); [|exact E].
  repeat constructor.
Qed.

Lemma signed_magnitude (m v : Q) :
  0 < m ->
  let r := if ltb v 0 then - m else m in
  Qabs r == m /\ (r < 0 <-> v < 0).
Proof.
  intros Hm. cbv zeta. destruct (ltb_spec v 0) as [Hv|Hv].
  - split; [rewrite Qabs_opp; apply Qabs_pos; lra | split; intros; lra].
  - split; [apply Qabs_pos; lra | split; intros; lra].
Qed.

Lemma same_magnitude_same_sign (a b v : Q) :
  Qabs a == Qabs b -> (a < 0 <-> v < 0) -> (b < 0 <-> v < 0) -> a == b.
Proof.
  intros Habs Ha Hb. revert Habs.
  apply (Qabs_case a); apply (Qabs_case b); intros; lra.
Qed.

Section BoundBox.
Variable st : EditorState.
Variables oldBox newBox : Box.t.

Let ar := aspectRatio (aspect st).
Let widthChange := Qabs (Box.width newBox - Box.width oldBox).
Let heightChange := Qabs (Box.height newBox - Box.height oldBox).


Hypothesis wide : MIN_SIZE <= Qabs (Box.width newBox).
Hypothesis tall : MIN_SIZE <= Qabs (Box.height newBox).

Lemma boundBoxFunc_accepts :
  boundBoxFunc st oldBox newBox =
  if keepRatio st then
    if gtb widthChange heightChange then
      {| Box.x := Box.x newBox; Box.y := Box.y newBox;
         Box.width := Box.width newBox;
         Box.height := if ltb (Box.height newBox) 0
                       then - (Qabs (Box.width newBox) / ar)
                       else Qabs (Box.width newBox) / ar;
         Box.rotation := Box.rotation newBox |}
    else
      {| Box.x := Box.x newBox; Box.y := Box.y newBox;
         Box.width := if ltb (Box.width newBox) 0
                      then - (Qabs (Box.height newBox) * ar)
                      else Qabs (Box.height newBox) * ar;
         Box.height := Box.height newBox;
         Box.rotation := Box.rotation newBox |}
  else newBox.
Proof.
  unfold boundBoxFunc, Math_abs.
  destruct (ltb_spec (Qabs (Box.width newBox)) MIN_SIZE); [lra|].
  destruct (ltb_spec (Qabs (Box.height newBox)) MIN_SIZE); [lra|].
  reflexivity.
Qed.

Lemma recomputed_height_positive : 0 < Qabs (Box.width newBox) / ar.
Proof.
  pose proof (aspectRatio_positive (aspect st)) as Har. fold ar in Har.
  unfold MIN_SIZE in wide.
  apply Qlt_shift_div_l; [exact Har | lra].
Qed.

Lemma recomputed_width_positive : 0 < Qabs (Box.height newBox) * ar.
Proof.
  pose proof (aspectRatio_positive (aspect st)) as Har. fold ar in Har.
  unfold MIN_SIZE in tall.
  apply Qmult_lt_0_compat; lra.
Qed.
End BoundBox.



(** Apart from ties the contract has one solution. *)
Lemma resize_functional (oldBox newBox : Box.t) (locked : bool) (ar minSize : Q)
    (r r' : Box.t) :
  ~ Qabs (Box.width newBox - Box.width oldBox)
      == Qabs (Box.height newBox - Box.height oldBox) ->
  resize oldBox newBox locked ar minSize r ->
  resize oldBox newBox locked ar minSize r' ->
  box_eq r r'.
Proof.
  intros Htie H H'.
  assert (Hrefl : forall b, box_eq b b) by (intros b; repeat split; reflexivity).
  destruct H; destruct H'; try apply Hrefl; try congruence; try lra;
    try (match goal with o : _ \/ _ |- _ => destruct o; lra end);
    unfold box_eq; repeat split;
    try (match goal with
         | H : ?f ?a = ?v, H' : ?f ?b = ?v |- ?f ?a == ?f ?b =>
             rewrite H, H'; reflexivity
         end).
  - apply (same_magnitude_same_sign _ _ (Box.height newBox)); try assumption.
    etransitivity; [eassumption | symmetry; assumption].
  - apply (same_magnitude_same_sign _ _ (Box.width newBox)); try assumption.
    etransitivity; [eassumption | symmetry; assumption].
Qed.



(** On a tie of the two changes the height drives. *)
Lemma boundBoxFunc_tie (st : EditorState) (oldBox newBox : Box.t) :
  MIN_SIZE <= Qabs (Box.width newBox) ->
  MIN_SIZE <= Qabs (Box.height newBox) ->
  keepRatio st = true ->
  Qabs (Box.width newBox - Box.width oldBox)
    == Qabs (Box.height newBox - Box.height oldBox) ->
  Box.height (boundBoxFunc st oldBox newBox) = Box.height newBox.
Proof.
  intros Hw Hh Hk Htie.
  rewrite (boundBoxFunc_accepts st oldBox newBox Hw Hh), Hk.
  destruct (gtb_spec (Qabs (Box.width newBox - Box.width oldBox))
                     (Qabs (Box.height newBox - Box.height oldBox)));
    [lra | reflexivity].
Qed.

(** ** Export *)

Module CroppingFacts.
Import PrimFloat Cropping.
Local Open Scope float_scope.

(** [Math.round] on doubles: a tie goes up, a result of zero keeps the
    sign of the argument, the largest double below 1/2 goes to 0, a double
    of magnitude 2^52 or more is an integer already, and what is not
    finite is returned as it is. *)
Lemma Math_round_doubles :
  Float64.Math_round 2.5 = 3 /\
  Float64.Math_round (-2.5) = -2 /\
  Float64.Math_round (-0.25) = neg_zero /\
  Float64.Math_round 0x1.fffffffffffffp-2 = 0 /\
  Float64.Math_round 0x1.0000000000001p+52 = 0x1.0000000000001p+52 /\
  Float64.Math_round nan = nan /\
  Float64.Math_round infinity = infinity /\
  Float64.Math_round neg_infinity = neg_infinity.
Proof. repeat split; vm_compute; reflexivity. Qed.



(** The y coordinate of the region depends on the height of the stage,
    the image being centered vertically: on a stage 500 high the same
    viewport and selection give sy = 300. *)
Lemma exportCropped_lower_stage :
  exists e,
    exportCropped lowerStage true = Some e /\
    cropRegion (metadata e)
      = {| Spec.sx := 200; Spec.sy := 300;
           Spec.sWidth := 400; Spec.sHeight := 300 |}.
Proof. eexists. split; [reflexivity|]. vm_compute. reflexivity. Qed.

(** The rounding is that of the double the engine arrives at.  For a
    1170 x 2532 image just loaded, the y coordinate of the source rectangle
    is 973.5 in exact arithmetic; the doubles give the double below it,
    and 973 is sent. *)
Lemma exportCropped_rounds_the_double :
  exists e,
    exportCropped tallPhoto true = Some e /\
    sy e = 0x1.e6bffffffffffp+9 /\
    (sy e <? 973.5) = true /\
    cropY (metadata e) = 973.
Proof.
  eexists. split; [reflexivity|].
  repeat split; vm_compute; reflexivity.
Qed.

(** On a stage of width 0 the displayed width is 0 and the scale to the
    source is infinite: the four numbers sent are infinities, which
    [JSON.stringify] writes as [null]. *)
Lemma exportCropped_no_stage :
  exists e,
    exportCropped noStage true = Some e /\
    cropX (metadata e) = infinity /\
    cropY (metadata e) = neg_infinity /\
    cropWidth (metadata e) = infinity /\
    cropHeight (metadata e) = infinity.
Proof.
  eexists. split; [reflexivity|].
  repeat split; vm_compute; reflexivity.
Qed.
End CroppingFacts.

(** ** The end of an interactive resize *)





(** ** Embedded resolution metadata *)

Module DpiFacts.
Import Dpi Png.
Open Scope Z_scope.

Lemma fold_bytes_nonneg (bs : list Z) :
  forall acc, 0 <= acc -> Forall (fun b => 0 <= b) bs ->
              0 <= fold_left (fun a b => a * 256 + b) bs acc.
Proof.
  induction bs as [|b bs IH]; simpl; intros acc Hacc Hbs.
  - exact Hacc.
  - inversion Hbs; subst. apply IH; [lia | assumption].
Qed.

Lemma bigEndian_nonneg (bs : list Z) :
  Forall (fun b => 0 <= b) bs -> 0 <= bigEndian bs.
Proof. apply fold_bytes_nonneg. lia. Qed.

Lemma byteValues_nonneg (l : list Byte.byte) :
  Forall (fun b => 0 <= b) (map byteValue l).
Proof.
  apply Forall_forall. intros v Hv. apply in_map_iff in Hv.
  destruct Hv as [b [<- _]]. unfold byteValue. lia.
Qed.

(** A read either throws or returns; a value read is not negative. *)
Lemma bytesAt_cases (dv : DataView) (o : Z) (n : nat) :
  bytesAt dv o n = Throw RangeError \/
  exists bs, bytesAt dv o n = Return bs /\ Forall (fun b => 0 <= b) bs.
Proof.
  unfold bytesAt. destruct ((0 <=? o) && (o + Z.of_nat n <=? byteLength dv)).
  - right. eexists. split; [reflexivity | apply byteValues_nonneg].
  - left. reflexivity.
Qed.

Lemma getUint8_cases (dv : DataView) (o : Z) :
  getUint8 dv o = Throw RangeError \/
  exists v, getUint8 dv o = Return v /\ 0 <= v.
Proof.
  unfold getUint8. destruct (bytesAt_cases dv o 1) as [->|[bs [-> Hbs]]].
  - left. reflexivity.
  - right. eexists. split; [reflexivity | now apply bigEndian_nonneg].
Qed.

Lemma endian_nonneg (little : bool) (bs : list Z) :
  Forall (fun b => 0 <= b) bs ->
  0 <= bigEndian (if little then rev bs else bs).
Proof.
  intros Hbs. apply bigEndian_nonneg. destruct little; [|assumption].
  apply Forall_forall. intros v Hv. apply in_rev in Hv.
  revert v Hv. now apply Forall_forall.
Qed.

Lemma getUint16_cases (dv : DataView) (o : Z) (little : bool) :
  getUint16 dv o little = Throw RangeError \/
  exists v, getUint16 dv o little = Return v /\ 0 <= v.
Proof.
  unfold getUint16. destruct (bytesAt_cases dv o 2) as [->|[bs [-> Hbs]]].
  - left. reflexivity.
  - right. eexists. split; [reflexivity | now apply endian_nonneg].
Qed.

Lemma getUint32_cases (dv : DataView) (o : Z) (little : bool) :
  getUint32 dv o little = Throw RangeError \/
  exists v, getUint32 dv o little = Return v /\ 0 <= v.
Proof.
  unfold getUint32. destruct (bytesAt_cases dv o 4) as [->|[bs [-> Hbs]]].
  - left. reflexivity.
  - right. eexists. split; [reflexivity | now apply endian_nonneg].
Qed.

(** Case analysis on the next read of a monadic block. *)
Ltac next_read :=
  match goal with
  | |- context [bind (getUint8 ?dv ?o) _] =>
      let v := fresh "v" in let Hv := fresh "Hv" in
      destruct (getUint8_cases dv o) as [->|[v [-> Hv]]]; cbn [bind]
  | |- context [bind (getUint16 ?dv ?o ?l) _] =>
      let v := fresh "v" in let Hv := fresh "Hv" in
      destruct (getUint16_cases dv o l) as [->|[v [-> Hv]]]; cbn [bind]
  | |- context [bind (getUint32 ?dv ?o ?l) _] =>
      let v := fresh "v" in let Hv := fresh "Hv" in
      destruct (getUint32_cases dv o l) as [->|[v [-> Hv]]]; cbn [bind]
  end.

Lemma chunkHeader_cases (dv : DataView) (o : Z) :
  chunkHeader dv o = Throw RangeError \/
  exists len type, chunkHeader dv o = Return (len, type) /\ 0 <= len.
Proof.
  unfold chunkHeader. repeat next_read;
    first [ left; reflexivity
          | right; eexists _, _; split; [reflexivity | assumption] ].
Qed.

(** One turn of the chunk loop, in terms of the chunk header. *)
Lemma pngChunks_step (fuel : nat) (dv : DataView) (offset : Z) :
  offset + 8 < byteLength dv ->
  pngChunks (S fuel) dv offset =
  (h <- chunkHeader dv offset ;;
   if eqList (snd h) pHYs && (9 <=? fst h) then
     pxPerUnitX <- getUint32 dv (offset + 8) false ;;
     pxPerUnitY <- getUint32 dv (offset + 12) false ;;
     unit <- getUint8 dv (offset + 16) ;;
     Return (Some (physText pxPerUnitX pxPerUnitY unit))
   else pngChunks fuel dv (offset + 8 + fst h + 4)).
Proof.
  intros Hin. cbn [pngChunks].
  destruct (Z.ltb_spec (offset + 8) (byteLength dv)) as [_|]; [|lia].
  unfold chunkHeader, physText. repeat next_read; cbn [fst snd];
    repeat match goal with
           | |- context [if ?c then _ else _] => destruct c
           end;
    reflexivity.
Qed.

Lemma pngChunks_done (fuel : nat) (dv : DataView) (offset : Z) :
  byteLength dv <= offset + 8 ->
  pngChunks (S fuel) dv offset = Return None.
Proof.
  intros Hout. cbn [pngChunks].
  destruct (Z.ltb_spec (offset + 8) (byteLength dv)); [lia | reflexivity].
Qed.

(** The chunk loop ends within the fuel it is given by the parser. *)
Lemma pngChunks_terminates (dv : DataView) (fuel : nat) :
  forall offset,
    (1 <= fuel)%nat ->
    byteLength dv - offset <= Z.of_nat fuel + 7 ->
    pngChunks fuel dv offset <> Diverge.
Proof.
  induction fuel as [|fuel IH]; intros offset Hfuel Hroom; [lia|].
  destruct (Z.lt_ge_cases (offset + 8) (byteLength dv)) as [Hin|Hout].
  - rewrite pngChunks_step by exact Hin.
    destruct (chunkHeader_cases dv offset) as [->|[len [type [-> Hlen]]]];
      cbn [bind fst snd]; [discriminate|].
    destruct (eqList type pHYs && (9 <=? len)).
    + repeat next_read; discriminate.
    + apply IH; lia.
  - rewrite pngChunks_done by exact Hout. discriminate.
Qed.

Lemma parsePNG_DPI_terminates (dv : DataView) : parsePNG_DPI dv <> Diverge.
Proof.
  unfold parsePNG_DPI.
  destruct (Z.ltb_spec (byteLength dv) 24) as [|Hlen]; [discriminate|].
  destruct (bytesAt_cases dv 0 8) as [->|[sig [-> _]]]; cbn [bind];
    [discriminate|].
  destruct (negb (eqList sig PNG_SIGNATURE)); [discriminate|].
  unfold byteLength in Hlen.
  apply pngChunks_terminates; unfold byteLength; lia.
Qed.

Lemma firstPhys_after (dv : DataView) (offset p : Z) :
  firstPhys dv offset p -> offset <= p.
Proof.
  induction 1 as [|offset len type p _ Hhead _ _ IH]; [lia|].
  destruct (chunkHeader_cases dv offset) as [E|[len' [type' [E Hlen]]]];
    rewrite E in Hhead; [discriminate|].
  injection Hhead as -> ->. lia.
Qed.

Lemma getUint8_inside (dv : DataView) (o v : Z) :
  getUint8 dv o = Return v -> 0 <= o /\ o + 1 <= byteLength dv.
Proof.
  unfold getUint8, bytesAt.
  destruct (Z.leb_spec 0 o); destruct (Z.leb_spec (o + Z.of_nat 1) (byteLength dv));
    cbn [andb bind]; try discriminate.
  intros _. lia.
Qed.

Lemma eqList_true (a b : list Z) : eqList a b = true <-> a = b.
Proof.
  unfold eqList. destruct (list_eq_dec Z.eq_dec a b); split;
    congruence.
Qed.

Lemma eqList_false (a b : list Z) : eqList a b = false <-> a <> b.
Proof.
  unfold eqList. destruct (list_eq_dec Z.eq_dec a b); split;
    congruence.
Qed.

(** The chunk loop started anywhere before the first pHYs chunk reports
    that chunk. *)
Lemma pngChunks_finds (dv : DataView) (p len pxPerUnitX pxPerUnitY unit : Z) :
  chunkHeader dv p = Return (len, pHYs) ->
  9 <= len ->
  getUint32 dv (p + 8) false = Return pxPerUnitX ->
  getUint32 dv (p + 12) false = Return pxPerUnitY ->
  getUint8 dv (p + 16) = Return unit ->
  forall offset,
    firstPhys dv offset p ->
    forall fuel,
      (1 <= fuel)%nat ->
      byteLength dv - offset <= Z.of_nat fuel + 7 ->
      pngChunks fuel dv offset
        = Return (Some (physText pxPerUnitX pxPerUnitY unit)).
Proof.
  intros Hhead Hlen Hx Hy Hu offset Hwalk.
  induction Hwalk as [offset len0 Hin _|offset len0 type p Hin Hskip Htype _ IH];
    intros [|fuel] Hfuel Hroom; try lia.
  - rewrite pngChunks_step by exact Hin.
    rewrite Hhead. cbn [bind fst snd].
    replace (eqList pHYs pHYs && (9 <=? len)) with true.
    + rewrite Hx, Hy, Hu. reflexivity.
    + symmetry. apply andb_true_iff. split; [now apply eqList_true | lia].
  - rewrite pngChunks_step by exact Hin.
    destruct (chunkHeader_cases dv offset) as [E|[len' [type' [E Hpos]]]];
      rewrite E in Hskip; [discriminate|].
    injection Hskip as -> ->.
    rewrite E. cbn [bind fst snd].
    apply eqList_false in Htype. rewrite Htype. cbn [andb].
    apply IH; try assumption; lia.
Qed.

(** C9: for a buffer with the PNG signature whose first pHYs chunk has
    length at least 9 and lies inside the buffer, with fields
    pxPerUnitX, pxPerUnitY and unit, the parser reports
    round(pxPerUnitX * 0.0254) x round(pxPerUnitY * 0.0254) DPI when the
    unit is 1 and both values are not zero, which is 72 x 72 DPI for
    2835 and 2835, and "unknown" when the unit is not 1 or a value is
    zero. *)
Theorem parsePNG_DPI_reads_pHYs (dv : DataView)
    (p len pxPerUnitX pxPerUnitY unit : Z) :
  bytesAt dv 0 8 = Return PNG_SIGNATURE ->
  firstPhys dv 8 p ->
  chunkHeader dv p = Return (len, pHYs) ->
  9 <= len ->
  getUint32 dv (p + 8) false = Return pxPerUnitX ->
  getUint32 dv (p + 12) false = Return pxPerUnitY ->
  getUint8 dv (p + 16) = Return unit ->
  (unit = 1 -> pxPerUnitX <> 0 -> pxPerUnitY <> 0 ->
     parsePNG_DPI dv
       = Return (Some (DPI (Math_round (inject_Z pxPerUnitX * (254 # 10000)))
                           (Math_round (inject_Z pxPerUnitY * (254 # 10000)))))) /\
  (unit = 1 -> pxPerUnitX = 2835 -> pxPerUnitY = 2835 ->
     parsePNG_DPI dv = Return (Some (DPI 72 72))) /\
  (unit <> 1 \/ pxPerUnitX = 0 \/ pxPerUnitY = 0 ->
     parsePNG_DPI dv = Return (Some Unknown)).
Proof.
  intros Hsig Hwalk Hhead Hlen Hx Hy Hu.
  assert (Hparse : parsePNG_DPI dv
                   = Return (Some (physText pxPerUnitX pxPerUnitY unit))).
  { pose proof (firstPhys_after dv 8 p Hwalk) as Hp.
    pose proof (getUint8_inside dv (p + 16) unit Hu) as [_ Hend].
    unfold parsePNG_DPI.
    destruct (Z.ltb_spec (byteLength dv) 24) as [|_]; [lia|].
    rewrite Hsig. cbn [bind].
    replace (eqList PNG_SIGNATURE PNG_SIGNATURE) with true
      by (symmetry; now apply eqList_true).
    cbn [negb].
    apply (pngChunks_finds dv p len); try assumption;
      unfold byteLength in *; lia. }
  rewrite Hparse. unfold physText. repeat split.
  - intros -> Hpx Hpy.
    apply Z.eqb_neq in Hpx, Hpy. rewrite Hpx, Hpy. reflexivity.
  - intros -> -> ->. reflexivity.
  - intros [Hunit | [ -> | -> ]].
    + apply Z.eqb_neq in Hunit. rewrite Hunit. reflexivity.
    + rewrite andb_false_r. reflexivity.
    + rewrite andb_false_r. reflexivity.
Qed.

Lemma parsePNG_DPI_reads_pHYs_witness :
  (bytesAt sample 0 8 = Return PNG_SIGNATURE /\
   firstPhys sample 8 33 /\
   chunkHeader sample 33 = Return (9, pHYs) /\
   9 <= 9 /\
   getUint32 sample (33 + 8) false = Return 2835 /\
   getUint32 sample (33 + 12) false = Return 2835 /\
   getUint8 sample (33 + 16) = Return 1) /\
  parsePNG_DPI sample = Return (Some (DPI 72 72)).
Proof.
  assert (Hwalk : firstPhys sample 8 33).
  { apply (phys_later sample 8 13 [73; 72; 68; 82] 33);
      [reflexivity | reflexivity | discriminate |].
    apply (phys_here sample 33 9); reflexivity. }
  split.
  - repeat split; try reflexivity; try exact Hwalk; lia.
  - apply (parsePNG_DPI_reads_pHYs sample 33 9 2835 2835 1);
      try reflexivity; try exact Hwalk; lia.
Defined.
(** *** Termination of the JPEG parser *)

Ltac run_block :=
  repeat first
    [ next_read
    | match goal with
      | |- context [if ?c then _ else _] => destruct c
      end ];
  cbn [bind].

Lemma ifdEntry_returns_or_throws (dv : DataView) (little : bool)
    (tiffOffset ifd0Offset i : Z) (r : resolution) :
  ifdEntry dv little tiffOffset ifd0Offset i r <> Diverge.
Proof. unfold ifdEntry. run_block; discriminate. Qed.

Lemma ifdEntries_returns_or_throws (dv : DataView) (little : bool)
    (tiffOffset ifd0Offset : Z) (count : nat) :
  forall i r, ifdEntries dv little tiffOffset ifd0Offset count i r <> Diverge.
Proof.
  induction count as [|count IH]; intros i r; cbn [ifdEntries].
  - discriminate.
  - pose proof (ifdEntry_returns_or_throws dv little tiffOffset ifd0Offset i r).
    destruct (ifdEntry dv little tiffOffset ifd0Offset i r); cbn [bind];
      [apply IH | discriminate | contradiction].
Qed.

Lemma exifBlock_returns_or_throws (dv : DataView) (exifStart : Z) :
  exifBlock dv exifStart <> Diverge.
Proof.
  unfold exifBlock. repeat next_read; try discriminate.
  match goal with
  | |- context [ifdEntries ?a ?b ?c ?d ?e ?f ?g] =>
      pose proof (ifdEntries_returns_or_throws a b c d e f g);
      destruct (ifdEntries a b c d e f g)
  end; cbn [bind]; try discriminate; try contradiction.
  repeat match goal with
         | |- context [if ?c then _ else _] => destruct c
         end; discriminate.
Qed.

(** The marker loop ends within the fuel it is given by the parser. *)
Lemma jpegMarkers_terminates (dv : DataView) (fuel : nat) :
  forall pos,
    (1 <= fuel)%nat ->
    byteLength dv - pos <= Z.of_nat fuel + 3 ->
    jpegMarkers fuel dv pos <> Diverge.
Proof.
  induction fuel as [|fuel IH]; intros pos Hfuel Hroom; [lia|].
  cbn [jpegMarkers].
  destruct (Z.ltb_spec (pos + 4) (byteLength dv)) as [Hin|Hout];
    [|discriminate].
  assert (Hnext : forall len, 0 <= len ->
                    jpegMarkers fuel dv (pos + 2 + len) <> Diverge)
    by (intros len Hlen; apply IH; lia).
  pose proof (exifBlock_returns_or_throws dv (pos + 4)) as Hexif.
  repeat next_read; try discriminate;
    repeat match goal with
           | |- context [if ?c then _ else _] => destruct c
           end;
    try discriminate; try (apply Hnext; assumption).
  destruct (exifBlock dv (pos + 4)) as [[text|]| |];
    try discriminate; try contradiction.
  apply Hnext; assumption.
Qed.

Lemma parseJPEG_EXIF_DPI_terminates (dv : DataView) :
  parseJPEG_EXIF_DPI dv <> Diverge.
Proof.
  unfold parseJPEG_EXIF_DPI.
  destruct (getUint8_cases dv 0) as [E0|[b0 [E0 _]]]; rewrite E0;
    cbn [bind]; [discriminate|].
  destruct (negb (b0 =? 255)); [discriminate|].
  destruct (getUint8_cases dv 1) as [E1|[b1 [E1 _]]]; rewrite E1;
    cbn [bind]; [discriminate|].
  destruct (negb (b1 =? 216)); [discriminate|].
  apply getUint8_inside in E1. unfold byteLength in E1.
  apply jpegMarkers_terminates; unfold byteLength; lia.
Qed.

(** *** Malformed input *)

Lemma four_bytes_no_metadata (b0 b1 b2 b3 : Byte.byte) :
  parsePNG_DPI [b0; b1; b2; b3] = Return None /\
  parseJPEG_EXIF_DPI [b0; b1; b2; b3] = Return None.
Proof.
  split; [reflexivity|].
  unfold parseJPEG_EXIF_DPI.
  change (getUint8 [b0; b1; b2; b3] 0) with (Return (0 * 256 + byteValue b0)).
  change (getUint8 [b0; b1; b2; b3] 1) with (Return (0 * 256 + byteValue b1)).
  cbn [bind].
  destruct (negb (_ =? 255)); [reflexivity|].
  destruct (negb (_ =? 216)); reflexivity.
Qed.

(** C5 (the code at failing inputs): every buffer of four bytes makes both
    parsers return without metadata, but the PNG parser throws a
    [RangeError] on the 24 bytes of a signature followed by a pHYs chunk
    cut before its unit byte, and the JPEG parser throws on the empty
    buffer and on a buffer that ends inside the header of an APP1
    segment. *)
Theorem parsers_throw_on_truncated_input :
  (forall b0 b1 b2 b3,
      parsePNG_DPI [b0; b1; b2; b3] = Return None /\
      parseJPEG_EXIF_DPI [b0; b1; b2; b3] = Return None) /\
  byteLength Png.truncated = 24 /\
  parsePNG_DPI Png.truncated = Throw RangeError /\
  parseJPEG_EXIF_DPI [] = Throw RangeError /\
  parseJPEG_EXIF_DPI Jpeg.truncated = Throw RangeError /\
  ~ parsersReturn Png.truncated /\
  ~ parsersReturn [] /\
  ~ parsersReturn Jpeg.truncated.
Proof.
  split; [exact four_bytes_no_metadata|].
  repeat split; try reflexivity.
  - intros [[a Ha] _]. discriminate Ha.
  - intros [_ [a Ha]]. discriminate Ha.
  - intros [_ [a Ha]]. discriminate Ha.
Qed.

(** The caller contains what the parsers throw: for every byte buffer the
    extraction of the DPI text (the PNG parser, then the JPEG parser,
    inside the promise chain of [handleFileObject]) ends with a text, and
    the text is "unknown" when a parser throws. *)
Lemma dpiInfo_contains_errors :
  (forall dv, exists text, dpiInfo dv = Return text) /\
  (forall dv, parsePNG_DPI dv = Throw RangeError ->
              dpiInfo dv = Return Unknown) /\
  (forall dv, parsePNG_DPI dv = Return None ->
              parseJPEG_EXIF_DPI dv = Throw RangeError ->
              dpiInfo dv = Return Unknown).
Proof.
  split; [|split].
  - intros dv. unfold dpiInfo.
    pose proof (parsePNG_DPI_terminates dv) as Hpng.
    pose proof (parseJPEG_EXIF_DPI_terminates dv) as Hjpeg.
    destruct (parsePNG_DPI dv) as [[text|]| |]; try contradiction;
      try (eexists; reflexivity).
    destruct (parseJPEG_EXIF_DPI dv) as [[text|]| |]; try contradiction;
      eexists; reflexivity.
  - intros dv E. unfold dpiInfo. rewrite E. reflexivity.
  - intros dv Epng Ejpeg. unfold dpiInfo. rewrite Epng, Ejpeg. reflexivity.
Qed.
End DpiFacts.

(** * Further properties *)

(** ** Rounding *)

Lemma Math_round_upper (v : Q) : inject_Z (Math_round v) <= v + (1 # 2).
Proof. unfold Math_round. apply Qfloor_le. Qed.

Lemma Math_round_lower (v : Q) : v - (1 # 2) < inject_Z (Math_round v).
Proof.
  unfold Math_round. pose proof (Qlt_floor (v + (1 # 2))) as H.
  rewrite inject_Z_plus in H. change (inject_Z 1) with 1 in H. lra.
Qed.

Lemma Math_round_mono (a b : Q) :
  a <= b -> inject_Z (Math_round a) <= inject_Z (Math_round b).
Proof.
  intros H. unfold Math_round. rewrite <- Zle_Qle.
  apply Qfloor_resp_le. lra.
Qed.

Lemma Qdiv_le_mono (a b c : Q) : 0 < c -> a <= b -> a / c <= b / c.
Proof.
  intros Hc H. unfold Qdiv. apply Qmult_le_compat_r; [exact H|].
  apply Qlt_le_weak. now apply Qinv_lt_0_compat.
Qed.

Lemma Qhalf (a : Q) : a / 2 == a * (1 # 2).
Proof. field. Qed.

(** Linear arithmetic does not look into divisions: name the halves. *)
Ltac note_halves :=
  repeat match goal with
         | |- context [?a / 2] =>
             lazymatch goal with
             | H : a / 2 == a * (1 # 2) |- _ => fail
             | _ => pose proof (Qhalf a)
             end
         | H : context [?a / 2] |- _ =>
             lazymatch goal with
             | H' : a / 2 == a * (1 # 2) |- _ => fail
             | _ => pose proof (Qhalf a)
             end
         end.

(** ** Choosing an aspect ratio *)

Section AspectChange.
Variable st : EditorState.
Variable nextAspect : string.

Let ar := aspectRatio nextAspect.
Let sw := stageWidth st.
Let sh := stageHeight st.
Let w := Selection.width (selection st).

(** The four ways through the two size adjustments. *)
Lemma handleAspectChange_size :
  let s := selection (handleAspectChange st nextAspect) in
  let h := inject_Z (Math_round (w / ar)) in
  (h <= sh /\ w <= sw /\
     Selection.width s = w /\ Selection.height s = h) \/
  (h <= sh /\ sw < w /\
     Selection.width s = sw - PADDING /\
     Selection.height s = inject_Z (Math_round ((sw - PADDING) / ar))) \/
  (sh < h /\ inject_Z (Math_round ((sh - PADDING) * ar)) <= sw /\
     Selection.width s = inject_Z (Math_round ((sh - PADDING) * ar)) /\
     Selection.height s = sh - PADDING) \/
  (sh < h /\ sw < inject_Z (Math_round ((sh - PADDING) * ar)) /\
     Selection.width s = sw - PADDING /\
     Selection.height s = inject_Z (Math_round ((sw - PADDING) / ar))).
Proof.
  cbv zeta. unfold handleAspectChange.
  fold ar sw sh w.
  destruct (gtb_spec (inject_Z (Math_round (w / ar))) sh) as [Hh|Hh].
  - destruct (gtb_spec (inject_Z (Math_round ((sh - PADDING) * ar))) sw)
      as [Hw|Hw]; cbn [selection setSelection Selection.width Selection.height].
    + right; right; right. repeat split; assumption.
    + right; right; left. repeat split; try assumption. lra.
  - destruct (gtb_spec w sw) as [Hw|Hw];
      cbn [selection setSelection Selection.width Selection.height].
    + right; left. repeat split; try assumption. lra.
    + left. repeat split; lra.
Qed.

Lemma handleAspectChange_fits :
  let s := selection (handleAspectChange st nextAspect) in
  Selection.width s <= sw /\ Selection.height s <= sh.
Proof.
  cbv zeta.
  pose proof (aspectRatio_positive nextAspect) as Har. fold ar in Har.
  destruct handleAspectChange_size
    as [[Hh [Hw [-> ->]]]|[[Hh [Hw [-> ->]]]|[[Hh [Hw [-> ->]]]|[Hh [Hw [-> ->]]]]]];
    unfold PADDING in *.
  - split; assumption.
  - split; [lra|].
    apply Qle_trans with (inject_Z (Math_round (w / ar))); [|exact Hh].
    apply Math_round_mono. apply Qdiv_le_mono; [exact Har | lra].
  - split; [exact Hw | lra].
  - split; [lra|].
    pose proof (Math_round_upper ((sh - 40) * ar)) as Hup.
    pose proof (Math_round_upper ((sw - 40) / ar)) as Hup'.
    assert (Hdiv : (sw - 40) / ar <= sh - 40).
    { apply Qle_shift_div_r; [exact Har | lra]. }
    lra.
Qed.
End AspectChange.

(** X1: whatever the selection was, after an aspect ratio is chosen the
    selection lies inside the stage: x >= 0, y >= 0, x + width <= stageWidth
    and y + height <= stageHeight; the stage and the view are unchanged and
    the chosen ratio is stored. *)
Theorem handleAspectChange_inside_stage (st : EditorState) (nextAspect : string) :
  let st' := handleAspectChange st nextAspect in
  let s := selection st' in
  0 <= Selection.x s /\ Selection.x s + Selection.width s <= stageWidth st /\
  0 <= Selection.y s /\ Selection.y s + Selection.height s <= stageHeight st /\
  aspect st' = nextAspect /\
  stageWidth st' = stageWidth st /\ stageHeight st' = stageHeight st /\
  imageScale st' = imageScale st /\ imageOffset st' = imageOffset st.
Proof.
  cbv zeta.
  pose proof (handleAspectChange_fits st nextAspect) as [Hw Hh].
  revert Hw Hh. unfold handleAspectChange.
  set (P := if gtb (inject_Z (Math_round (_ / _))) (stageHeight st) then _ else _).
  destruct P as [w1 h1].
  set (R := if gtb w1 (stageWidth st) then _ else _).
  destruct R as [w2 h2].
  cbn [selection setSelection setAspect Selection.x Selection.y Selection.width
       Selection.height aspect stageWidth stageHeight imageScale imageOffset].
  intros Hw Hh.
  pose proof (clamp_between 0 (stageWidth st - w2)) as Cx.
  pose proof (clamp_between 0 (stageHeight st - h2)) as Cy.
  repeat split; try reflexivity.
  - apply Cx. lra.
  - match goal with |- Math_max 0 (Math_min _ ?v) + _ <= _ =>
      specialize (Cx v) end. lra.
  - apply Cy. lra.
  - match goal with |- Math_max 0 (Math_min _ ?v) + _ <= _ =>
      specialize (Cy v) end. lra.
Qed.

(** X2: after an aspect ratio is chosen the selection has that ratio up to
    the rounding of one dimension: the height is round(width / ratio), or
    the width is round(height * ratio); so |height - width / ratio| <= 1/2
    or |width - height * ratio| <= 1/2. *)
Theorem handleAspectChange_ratio (st : EditorState) (nextAspect : string) :
  let s := selection (handleAspectChange st nextAspect) in
  let ar := aspectRatio nextAspect in
  (Selection.height s = inject_Z (Math_round (Selection.width s / ar)) /\
   Qabs (Selection.height s - Selection.width s / ar) <= 1 # 2) \/
  (Selection.width s = inject_Z (Math_round (Selection.height s * ar)) /\
   Qabs (Selection.width s - Selection.height s * ar) <= 1 # 2).
Proof.
  cbv zeta.
  assert (Hround : forall v, Qabs (inject_Z (Math_round v) - v) <= 1 # 2).
  { intros v. pose proof (Math_round_upper v). pose proof (Math_round_lower v).
    apply Qabs_Qle_condition. split; lra. }
  destruct (handleAspectChange_size st nextAspect)
    as [[_ [_ [-> ->]]]|[[_ [_ [-> ->]]]|[[_ [_ [-> ->]]]|[_ [_ [-> ->]]]]]].
  - left. split; [reflexivity | apply Hround].
  - left. split; [reflexivity | apply Hround].
  - right. split; [reflexivity | apply Hround].
  - left. split; [reflexivity | apply Hround].
Qed.

(** ** The selection of a freshly loaded image *)

(** X3: when an image finishes loading the view is scale 1 at offset
    (0, 0), and the selection is at most 400 wide, keeps more than 19 free
    on its left and on its right, has height round(width / ratio), and is
    centered on both axes up to the rounding of its position. *)
Theorem onload_selection (img : HTMLImageElement) (st : EditorState) :
  let st' := onload img st in
  let s := selection st' in
  imgElement st' = Some img /\
  imageScale st' = 1 /\ imageOffset st' = {| Point.x := 0; Point.y := 0 |} /\
  Selection.width s <= 400 /\
  19 < Selection.x s /\
  Selection.x s + Selection.width s + 19 < stageWidth st /\
  Selection.height s
    = inject_Z (Math_round (Selection.width s / aspectRatio (aspect st))) /\
  Qabs (Selection.x s + Selection.width s / 2 - stageWidth st / 2) <= 1 # 2 /\
  Qabs (Selection.y s + Selection.height s / 2 - stageHeight st / 2) <= 1 # 2.
Proof.
  cbv zeta. unfold onload.
  cbn [imgElement imageScale imageOffset selection Selection.x Selection.y
       Selection.width Selection.height].
  set (w := Math_min DEFAULT_SELECTION_WIDTH (stageWidth st - PADDING)).
  set (h := inject_Z (Math_round (w / aspectRatio (aspect st)))).
  assert (Hw : w <= 400 /\ w <= stageWidth st - 40).
  { unfold w, Math_min, DEFAULT_SELECTION_WIDTH, PADDING.
    split; [apply Q.le_min_l | apply Q.le_min_r]. }
  destruct Hw as [Hw1 Hw2].
  pose proof (Math_round_upper ((stageWidth st - w) / 2)) as Ux.
  pose proof (Math_round_lower ((stageWidth st - w) / 2)) as Lx.
  pose proof (Math_round_upper ((stageHeight st - h) / 2)) as Uy.
  pose proof (Math_round_lower ((stageHeight st - h) / 2)) as Ly.
  repeat match goal with |- _ /\ _ => split end;
    try reflexivity; clearbody h; clearbody w;
    try match goal with |- Qabs _ <= _ => apply Qabs_Qle_condition end;
    note_halves; lra.
Qed.

(** X4: Reset puts the component back into the state in which the loading
    of its image left it, whatever zooming, panning and resizing happened in
    between, provided the stage and the chosen ratio are the same. *)
Theorem handleReset_restores (img : HTMLImageElement) (st st' : EditorState) :
  imgElement st' = Some img ->
  stageWidth st' = stageWidth st -> stageHeight st' = stageHeight st ->
  keepRatio st' = keepRatio st -> aspect st' = aspect st ->
  handleReset st' = onload img st.
Proof.
  intros Himg Hw Hh Hk Ha. unfold handleReset, onload, setSelection,
    setImageOffset, setImageScale.
  cbn [stageWidth stageHeight imgElement imageScale imageOffset selection
       keepRatio aspect].
  rewrite Himg, Hw, Hh, Hk, Ha. reflexivity.
Qed.

Lemma handleReset_restores_witness :
  let st' := handleWheel wheelStart
               {| pointer := Some {| Point.x := 10; Point.y := 20 |};
                  deltaY := -100 |} in
  (imgElement st' = Some {| naturalWidth := 800; naturalHeight := 600 |} /\
   stageWidth st' = stageWidth initialState /\
   stageHeight st' = stageHeight initialState /\
   keepRatio st' = keepRatio initialState /\
   aspect st' = aspect initialState) /\
  handleReset st' = wheelStart.
Proof.
  cbv zeta. split.
  - repeat split; reflexivity.
  - apply (handleReset_restores
             {| naturalWidth := 800; naturalHeight := 600 |} initialState);
      reflexivity.
Defined.

(** ** More on the selection clamp *)

(** X5: a selection that lies inside the stage is returned as it is. *)
Theorem clampSelection_inside_unchanged (st : EditorState) (sel : Selection.t) :
  0 <= Selection.x sel -> 0 <= Selection.y sel ->
  Selection.x sel + Selection.width sel <= stageWidth st ->
  Selection.y sel + Selection.height sel <= stageHeight st ->
  clampSelection st sel = sel.
Proof.
  destruct sel as [sx sy sw sh].
  cbn [Selection.x Selection.y Selection.width Selection.height].
  intros Hx Hy Hr Hb. unfold clampSelection.
  repeat (branch_on_test;
          cbn [Selection.x Selection.y Selection.width Selection.height] in *);
    try lra.
  reflexivity.
Qed.

Lemma clampSelection_inside_unchanged_witness :
  (0 <= 100 /\ 0 <= 100 /\ 100 + 200 <= stageWidth wheelStart /\
   100 + 150 <= stageHeight wheelStart) /\
  clampSelection wheelStart
    {| Selection.x := 100; Selection.y := 100;
       Selection.width := 200; Selection.height := 150 |}
  = {| Selection.x := 100; Selection.y := 100;
       Selection.width := 200; Selection.height := 150 |}.
Proof.
  split.
  - repeat split; vm_compute; discriminate.
  - apply (clampSelection_inside_unchanged wheelStart
             {| Selection.x := 100; Selection.y := 100;
                Selection.width := 200; Selection.height := 150 |});
      vm_compute; discriminate.
Defined.

(** X6: a selection wider than the stage is put at x = stageWidth - width,
    left of the stage, wherever it was; one taller than the stage at
    y = stageHeight - height, above it. *)
Theorem clampSelection_oversize (st : EditorState) (sel : Selection.t) :
  let r := clampSelection st sel in
  (stageWidth st < Selection.width sel ->
     Selection.x r = stageWidth st - Selection.width sel /\ Selection.x r < 0) /\
  (stageHeight st < Selection.height sel ->
     Selection.y r = stageHeight st - Selection.height sel /\ Selection.y r < 0).
Proof.
  destruct sel as [sx sy sw sh].
  cbn [Selection.x Selection.y Selection.width Selection.height].
  unfold clampSelection.
  repeat (branch_on_test;
          cbn [Selection.x Selection.y Selection.width Selection.height] in *);
    split; intros Hbig; try lra; split; try reflexivity; lra.
Qed.

Lemma clampSelection_oversize_witness :
  (stageWidth wheelStart < 900 /\ stageHeight wheelStart < 700) /\
  Selection.x (clampSelection wheelStart
                 {| Selection.x := 30; Selection.y := 20;
                    Selection.width := 900; Selection.height := 700 |})
  = stageWidth wheelStart - 900 /\
  Selection.y (clampSelection wheelStart
                 {| Selection.x := 30; Selection.y := 20;
                    Selection.width := 900; Selection.height := 700 |})
  = stageHeight wheelStart - 700.
Proof.
  pose proof (clampSelection_oversize wheelStart
                {| Selection.x := 30; Selection.y := 20;
                   Selection.width := 900; Selection.height := 700 |}) as [Hx Hy].
  split.
  - split; vm_compute; reflexivity.
  - split; [apply Hx | apply Hy]; vm_compute; reflexivity.
Defined.

(** X7: clamping a selection twice gives what clamping it once gives. *)
Theorem clampSelection_idempotent (st : EditorState) (sel : Selection.t) :
  clampSelection st (clampSelection st sel) = clampSelection st sel.
Proof.
  destruct sel as [sx sy sw sh]. unfold clampSelection.
  repeat (branch_on_test;
          cbn [Selection.x Selection.y Selection.width Selection.height] in *);
    try reflexivity; lra.
Qed.

(** ** More on the resize bound *)

(** X8: with aspect lock on, a box that is accepted comes back with
    |width| = ratio * |height| exactly, whichever dimension drove. *)
Theorem boundBoxFunc_locks_ratio (st : EditorState) (oldBox newBox : Box.t) :
  MIN_SIZE <= Qabs (Box.width newBox) ->
  MIN_SIZE <= Qabs (Box.height newBox) ->
  keepRatio st = true ->
  let r := boundBoxFunc st oldBox newBox in
  Qabs (Box.width r) == aspectRatio (aspect st) * Qabs (Box.height r).
Proof.
  intros Hw Hh Hk. cbv zeta.
  rewrite (boundBoxFunc_accepts st oldBox newBox Hw Hh), Hk.
  pose proof (aspectRatio_positive (aspect st)) as Har.
  destruct (gtb (Qabs (Box.width newBox - Box.width oldBox))
                (Qabs (Box.height newBox - Box.height oldBox)));
    cbn [Box.width Box.height].
  - destruct (signed_magnitude _ (Box.height newBox)
                (recomputed_height_positive st newBox Hw)) as [-> _].
    field. lra.
  - destruct (signed_magnitude _ (Box.width newBox)
                (recomputed_width_positive st newBox Hh)) as [-> _].
    ring.
Qed.

Lemma boundBoxFunc_locks_ratio_witness :
  (MIN_SIZE <= Qabs 130 /\ MIN_SIZE <= Qabs (-110) /\ keepRatio lockedWide = true) /\
  Qabs (Box.width (boundBoxFunc lockedWide
                     {| Box.x := 50; Box.y := 50; Box.width := 100;
                        Box.height := 100; Box.rotation := 0 |}
                     {| Box.x := 50; Box.y := 50; Box.width := 130;
                        Box.height := -110; Box.rotation := 0 |}))
  == aspectRatio (aspect lockedWide)
     * Qabs (Box.height (boundBoxFunc lockedWide
                           {| Box.x := 50; Box.y := 50; Box.width := 100;
                              Box.height := 100; Box.rotation := 0 |}
                           {| Box.x := 50; Box.y := 50; Box.width := 130;
                              Box.height := -110; Box.rotation := 0 |})).
Proof.
  split.
  - repeat split; try reflexivity; vm_compute; discriminate.
  - apply (boundBoxFunc_locks_ratio lockedWide
             {| Box.x := 50; Box.y := 50; Box.width := 100;
                Box.height := 100; Box.rotation := 0 |}
             {| Box.x := 50; Box.y := 50; Box.width := 130;
                Box.height := -110; Box.rotation := 0 |});
      try reflexivity; vm_compute; discriminate.
Defined.

(** ** More on the export *)

(** X9: a selection that is exactly the displayed image is exported as the
    whole source image: the rectangle handed to drawImage is
    (0, 0, naturalWidth, naturalHeight). *)
Theorem exportCropped_whole_image (st : EditorState) (img : HTMLImageElement) :
  imgElement st = Some img ->
  ~ naturalWidth img == 0 ->
  ~ displayedImageWidth st == 0 ->
  selection_eq (selection st)
    {| Selection.x := imageX st; Selection.y := imageY st;
       Selection.width := displayedImageWidth st;
       Selection.height := displayedImageHeight st |} ->
  exists e,
    exportCropped st true = Some e /\
    sx e == 0 /\ sy e == 0 /\
    sWidth e == naturalWidth img /\ sHeight e == naturalHeight img.
Proof.
  intros loaded Hnat Hshown [Hx [Hy [Hw Hh]]].
  cbn [Selection.x Selection.y Selection.width Selection.height] in *.
  unfold exportCropped. rewrite loaded. cbn [negb].
  eexists. split; [reflexivity|].
  cbn [sx sy sWidth sHeight].
  rewrite Hx, Hy, Hw, Hh.
  unfold displayedImageHeight. rewrite loaded.
  repeat match goal with |- _ /\ _ => split end; field; auto.
Qed.

Lemma exportCropped_whole_image_witness :
  let st := setSelection {| Selection.x := 0; Selection.y := 0;
                            Selection.width := 800; Selection.height := 600 |}
              exportExample in
  (imgElement st = Some {| naturalWidth := 1600; naturalHeight := 1200 |} /\
   ~ 1600 == 0 /\ ~ displayedImageWidth st == 0 /\
   selection_eq (selection st)
     {| Selection.x := imageX st; Selection.y := imageY st;
        Selection.width := displayedImageWidth st;
        Selection.height := displayedImageHeight st |}) /\
  exists e,
    exportCropped st true = Some e /\
    sx e == 0 /\ sy e == 0 /\ sWidth e == 1600 /\ sHeight e == 1200.
Proof.
  cbv zeta.
  assert (H : forall a b : Q, Qeq_bool a b = false -> ~ a == b).
  { intros a b E. apply Qeq_bool_neq. exact E. }
  split.
  - split; [reflexivity|]. split; [apply H; reflexivity|].
    split; [apply H; reflexivity|].
    repeat split; vm_compute; reflexivity.
  - apply (exportCropped_whole_image
             (setSelection {| Selection.x := 0; Selection.y := 0;
                              Selection.width := 800; Selection.height := 600 |}
                exportExample)
             {| naturalWidth := 1600; naturalHeight := 1200 |});
      [reflexivity | apply H; reflexivity | apply H; reflexivity |].
    repeat split; vm_compute; reflexivity.
Defined.

(** ** Panning *)

(** Whether the stored offset respects the bounds of [clampOffset] on both
    axes. *)
Lemma clampOffset_in_bounds (st : EditorState) (img : HTMLImageElement)
    (off : Point.t) :
  imgElement st = Some img ->
  offsetInBounds (setImageOffset (clampOffset st off) st).
Proof.
  intros loaded. unfold offsetInBounds.
  apply (clampOffset_axes st img off loaded).
Qed.

(** X10: on an axis on which the displayed image is not larger than the
    stage, dragging the background does not move the image: the offset
    stored is 0. *)
Theorem pan_needs_larger_image (st : EditorState) (img : HTMLImageElement)
    (dx dy : Q) :
  imgElement st = Some img ->
  let st' := handleStageMouseMove st dx dy in
  (displayedImageWidth st <= stageWidth st -> Point.x (imageOffset st') == 0) /\
  (displayedImageHeight st <= stageHeight st -> Point.y (imageOffset st') == 0).
Proof.
  intros loaded. cbv zeta. unfold handleStageMouseMove.
  cbn [imageOffset setImageOffset].
  set (off := {| Point.x := _; Point.y := _ |}).
  split; intros Hle.
  - destruct (Qlt_le_dec (displayedImageWidth st) (stageWidth st)) as [Hlt|Hge].
    + apply (clampOffset_x_small st img loaded off Hlt).
    + assert (Hn : ~ displayedImageWidth st < stageWidth st) by lra.
      pose proof (clampOffset_x_large st img loaded off Hn). lra.
  - destruct (Qlt_le_dec (displayedImageHeight st) (stageHeight st)) as [Hlt|Hge].
    + apply (clampOffset_y_small st img loaded off Hlt).
    + assert (Hn : ~ displayedImageHeight st < stageHeight st) by lra.
      pose proof (clampOffset_y_large st img loaded off Hn). lra.
Qed.

Lemma pan_needs_larger_image_witness :
  imgElement wheelStart = Some {| naturalWidth := 800; naturalHeight := 600 |} /\
  (displayedImageWidth wheelStart <= stageWidth wheelStart ->
   Point.x (imageOffset (handleStageMouseMove wheelStart 35 (-12))) == 0) /\
  (displayedImageHeight wheelStart <= stageHeight wheelStart ->
   Point.y (imageOffset (handleStageMouseMove wheelStart 35 (-12))) == 0).
Proof.
  split.
  - reflexivity.
  - apply (pan_needs_larger_image wheelStart
             {| naturalWidth := 800; naturalHeight := 600 |}).
    reflexivity.
Defined.

Lemma stageMouse_keeps_view (s : EditorState * PanState) (e : StageMouseEvent) :
  let s' := stageMouse s e in
  stageWidth (fst s') = stageWidth (fst s) /\
  stageHeight (fst s') = stageHeight (fst s) /\
  imgElement (fst s') = imgElement (fst s) /\
  imageScale (fst s') = imageScale (fst s) /\
  selection (fst s') = selection (fst s).
Proof.
  destruct s as [st pan]. destruct e as [onSel pos|pos|]; cbn [stageMouse fst].
  - destruct onSel; repeat split.
  - destruct (isPanning pan), (panLast pan), pos; repeat split.
  - repeat split.
Qed.

Lemma stageMouse_in_bounds (img : HTMLImageElement)
    (s : EditorState * PanState) (e : StageMouseEvent) :
  imgElement (fst s) = Some img ->
  offsetInBounds (fst s) -> offsetInBounds (fst (stageMouse s e)).
Proof.
  destruct s as [st pan]. cbn [fst]. intros loaded Hin.
  destruct e as [onSel pos|pos|]; cbn [stageMouse fst].
  - destruct onSel; exact Hin.
  - destruct (isPanning pan), (panLast pan), pos; try exact Hin.
    cbn [fst]. unfold handleStageMouseMove.
    now apply (clampOffset_in_bounds st img).
  - exact Hin.
Qed.

(** X11: whatever sequence of mouse presses, moves and releases the stage
    receives, the stage, the image, the scale and the selection stay as they
    are, and an offset that is within the bounds of [clampOffset] stays
    within them. *)
Theorem panning_keeps_offset_in_bounds (img : HTMLImageElement)
    (es : list StageMouseEvent) :
  forall s : EditorState * PanState,
    imgElement (fst s) = Some img ->
    offsetInBounds (fst s) ->
    let s' := stageMouseEvents s es in
    offsetInBounds (fst s') /\
    stageWidth (fst s') = stageWidth (fst s) /\
    stageHeight (fst s') = stageHeight (fst s) /\
    imgElement (fst s') = imgElement (fst s) /\
    imageScale (fst s') = imageScale (fst s) /\
    selection (fst s') = selection (fst s).
Proof.
  unfold stageMouseEvents.
  induction es as [|e es IH]; intros s loaded Hin; cbn [fold_left].
  - split; [exact Hin | repeat split].
  - pose proof (stageMouse_keeps_view s e) as [Hw [Hh [Hi [Hs Hsel]]]].
    pose proof (stageMouse_in_bounds img s e loaded Hin) as Hin'.
    assert (loaded' : imgElement (fst (stageMouse s e)) = Some img) by congruence.
    destruct (IH (stageMouse s e) loaded' Hin') as [H1 [H2 [H3 [H4 [H5 H6]]]]].
    split; [exact H1 | repeat split; congruence].
Qed.

Lemma atScaleTwo_in_bounds : offsetInBounds atScaleTwo.
Proof.
  split; split; intros H;
    try (exfalso; revert H; vm_compute; discriminate);
    split; vm_compute; discriminate.
Qed.

Lemma panning_keeps_offset_in_bounds_witness :
  let s := (atScaleTwo, {| isPanning := false; panLast := None |}) in
  let es := [MouseDown false (Some {| Point.x := 500; Point.y := 300 |});
             MouseMove (Some {| Point.x := 100; Point.y := 350 |});
             MouseMove (Some {| Point.x := -900; Point.y := 350 |});
             MouseUp;
             MouseMove (Some {| Point.x := 0; Point.y := 0 |})] in
  (imgElement (fst s) = Some {| naturalWidth := 800; naturalHeight := 600 |} /\
   offsetInBounds (fst s)) /\
  offsetInBounds (fst (stageMouseEvents s es)) /\
  imageScale (fst (stageMouseEvents s es)) = imageScale (fst s).
Proof.
  cbv zeta. split.
  - split; [reflexivity | exact atScaleTwo_in_bounds].
  - pose proof (panning_keeps_offset_in_bounds
                  {| naturalWidth := 800; naturalHeight := 600 |}
                  [MouseDown false (Some {| Point.x := 500; Point.y := 300 |});
                   MouseMove (Some {| Point.x := 100; Point.y := 350 |});
                   MouseMove (Some {| Point.x := -900; Point.y := 350 |});
                   MouseUp;
                   MouseMove (Some {| Point.x := 0; Point.y := 0 |})]
                  (atScaleTwo, {| isPanning := false; panLast := None |})
                  eq_refl atScaleTwo_in_bounds) as [Hin [_ [_ [_ [Hs _]]]]].
    split; [exact Hin | exact Hs].
Defined.

Lemma last_cons_default (path : list Point.t) :
  forall q p0 : Point.t, last (q :: path) p0 = last path q.
Proof.
  induction path as [|a rest IH]; intros q p0; [reflexivity|].
  change (last (q :: a :: rest) p0) with (last (a :: rest) p0).
  rewrite (IH a p0), (IH a q). reflexivity.
Qed.

(** X12: without an image nothing is clamped: a drag of the background from
    a point p0 through any points to a point p moves the stored offset by
    exactly p - p0. *)
Theorem panning_without_image (st : EditorState) (p0 : Point.t)
    (path : list Point.t) :
  imgElement st = None ->
  let s := (st, {| isPanning := true; panLast := Some p0 |}) in
  let s' := stageMouseEvents s (map (fun p => MouseMove (Some p)) path) in
  let p := last path p0 in
  Point.x (imageOffset (fst s')) == Point.x (imageOffset st) + (Point.x p - Point.x p0) /\
  Point.y (imageOffset (fst s')) == Point.y (imageOffset st) + (Point.y p - Point.y p0) /\
  panLast (snd s') = Some p.
Proof.
  intros Hnone. cbv zeta. unfold stageMouseEvents.
  revert st p0 Hnone.
  induction path as [|q path IH]; intros st p0 Hnone.
  - cbn. repeat split; try reflexivity; ring.
  - rewrite last_cons_default.
    cbn [map fold_left stageMouse isPanning panLast].
    assert (Hnone' : imgElement (handleStageMouseMove st
                       (Point.x q - Point.x p0) (Point.y q - Point.y p0)) = None)
      by exact Hnone.
    destruct (IH _ q Hnone') as [Hx [Hy Hp]].
    repeat match goal with |- _ /\ _ => split end.
    + rewrite Hx. unfold handleStageMouseMove, clampOffset. rewrite Hnone.
      cbn [imageOffset setImageOffset Point.x]. ring.
    + rewrite Hy. unfold handleStageMouseMove, clampOffset. rewrite Hnone.
      cbn [imageOffset setImageOffset Point.y]. ring.
    + exact Hp.
Qed.

Lemma panning_without_image_witness :
  imgElement initialState = None /\
  Point.x (imageOffset (fst (stageMouseEvents
             (initialState,
              {| isPanning := true;
                 panLast := Some {| Point.x := 10; Point.y := 10 |} |})
             (map (fun p => MouseMove (Some p))
                  [{| Point.x := 30; Point.y := 5 |};
                   {| Point.x := 70; Point.y := 45 |}]))))
  == Point.x (imageOffset initialState) + (70 - 10).
Proof.
  split.
  - reflexivity.
  - apply (panning_without_image initialState
             {| Point.x := 10; Point.y := 10 |}
             [{| Point.x := 30; Point.y := 5 |};
              {| Point.x := 70; Point.y := 45 |}]).
    reflexivity.
Defined.

(** ** The drop area *)

Lemma dropAreaEvent_invariant (a : DropArea) (e : DragEvent) :
  (0 <= dragCounter a)%Z /\ (dragover a = true <-> 0 < dragCounter a)%Z ->
  (0 <= dragCounter (dropAreaEvent a e))%Z /\
  (dragover (dropAreaEvent a e) = true <-> 0 < dragCounter (dropAreaEvent a e))%Z.
Proof.
  intros [Hpos Hiff]. destruct e; cbn [dropAreaEvent dragCounter dragover].
  - split; [lia | split; intros; [lia | reflexivity]].
  - split; assumption.
  - split; [lia|].
    destruct (Z.eqb_spec (Z.max 0 (dragCounter a - 1)) 0) as [E|E].
    + rewrite E. split; [discriminate | lia].
    + split; intros H; [lia | apply Hiff; lia].
  - split; [lia | split; [discriminate | lia]].
Qed.

(** X13: over any sequence of drag events on the drop area, starting from
    the counter at 0 and the area not highlighted, the counter is never
    negative and the area is highlighted exactly while the counter is
    positive; a drop always leaves the counter at 0 and the highlight off. *)
Theorem dropArea_highlight (es : list DragEvent) :
  let a := dropAreaEvents {| dragCounter := 0; dragover := false |} es in
  (0 <= dragCounter a)%Z /\
  (dragover a = true <-> 0 < dragCounter a)%Z /\
  (forall a0, dropAreaEvents a0 (es ++ [Drop])
              = {| dragCounter := 0; dragover := false |}).
Proof.
  cbv zeta. unfold dropAreaEvents.
  assert (G : forall a0,
             (0 <= dragCounter a0)%Z /\
             (dragover a0 = true <-> 0 < dragCounter a0)%Z ->
             (0 <= dragCounter (fold_left dropAreaEvent es a0))%Z /\
             (dragover (fold_left dropAreaEvent es a0) = true
              <-> 0 < dragCounter (fold_left dropAreaEvent es a0))%Z).
  { induction es as [|e es IH]; intros a0 H; cbn [fold_left].
    - exact H.
    - apply IH. now apply dropAreaEvent_invariant. }
  destruct (G {| dragCounter := 0; dragover := false |}) as [H1 H2].
  { cbn. split; [lia | split; [discriminate | lia]]. }
  split; [exact H1 | split; [exact H2 |]].
  intros a0. rewrite fold_left_app. reflexivity.
Qed.

(** ** File size *)

Lemma scaleToUnit_spec (room : nat) :
  forall (v : Q) (i : nat),
    let r := scaleToUnit room v i in
    (i <= snd r <= i + room)%nat /\
    fst r * inject_Z (1024 ^ Z.of_nat (snd r - i)) == v /\
    ((snd r < i + room)%nat -> fst r < 1024) /\
    ((i < snd r)%nat -> 1 <= fst r).
Proof.
  induction room as [|room IH]; intros v i; cbn [scaleToUnit].
  - cbn [fst snd]. rewrite Nat.sub_diag. repeat split; try lia.
    change (inject_Z (1024 ^ Z.of_nat 0)) with 1. ring.
  - destruct (ltb_spec v 1024) as [Hlt|Hge].
    + cbn [fst snd]. rewrite Nat.sub_diag. repeat split; try lia.
      * change (inject_Z (1024 ^ Z.of_nat 0)) with 1. ring.
      * intros _. exact Hlt.
    + specialize (IH (v / 1024) (S i)). cbv zeta in IH.
      destruct (scaleToUnit room (v / 1024) (S i)) as [v' i'].
      cbn [fst snd] in *. destruct IH as [[Hlo Hhi] [Hval [Hsmall Hbig]]].
      repeat match goal with |- _ /\ _ => split end; try lia.
      * replace (i' - i)%nat with (S (i' - S i)) by lia.
        rewrite Nat2Z.inj_succ, Z.pow_succ_r by lia.
        rewrite inject_Z_mult. change (inject_Z 1024) with 1024.
        transitivity (1024 * (v' * inject_Z (1024 ^ Z.of_nat (i' - S i))));
          [ring|]. rewrite Hval. field.
      * intros H. apply Hsmall. lia.
      * intros _. destruct (Nat.eq_dec i' (S i)) as [E|E].
        -- subst i'. rewrite Nat.sub_diag in Hval.
           change (inject_Z (1024 ^ Z.of_nat 0)) with 1 in Hval.
           assert (Hv : v' == v / 1024) by (rewrite <- Hval; ring).
           rewrite Hv. apply Qle_shift_div_l; lra.
        -- apply Hbig. lia.
Qed.

(** X14: for a size that is not 0, [formatBytes] picks one of the units B,
    KB, MB, GB and a value such that value * 1024^unit is the size; the value
    is below 1024 unless the unit is GB, and at least 1 unless the unit is B;
    B is printed without decimals, the other units with two.  The size 0 is
    printed as 0 B. *)
Theorem formatBytes_scales (bytes : Q) :
  (bytes == 0 -> formatBytes bytes = {| fixed := 0; digits := 0; unit := "B" |}) /\
  (~ bytes == 0 ->
   exists (v : Q) (i : nat),
     (i <= 3)%nat /\
     v * inject_Z (1024 ^ Z.of_nat i) == bytes /\
     ((i < 3)%nat -> v < 1024) /\
     ((0 < i)%nat -> 1 <= v) /\
     unit (formatBytes bytes) = nth i units "" /\
     In (unit (formatBytes bytes)) units /\
     digits (formatBytes bytes) = (if Nat.eqb i 0 then 0 else 2)%nat /\
     fixed (formatBytes bytes) = toFixed v (digits (formatBytes bytes))).
Proof.
  unfold formatBytes. split.
  - intros E. apply Qeq_bool_iff in E. rewrite E. reflexivity.
  - intros Hne. destruct (Qeq_bool bytes 0) eqn:E.
    { apply Qeq_bool_iff in E. contradiction. }
    pose proof (scaleToUnit_spec (List.length units - 1) bytes 0) as H.
    cbv zeta in H. change (List.length units - 1)%nat with 3%nat in *.
    destruct (scaleToUnit 3 bytes 0) as [v i]. cbn [fst snd] in H.
    destruct H as [[_ Hhi] [Hval [Hsmall Hbig]]].
    rewrite Nat.sub_0_r in Hval.
    exists v, i. cbn [unit digits fixed].
    repeat match goal with |- _ /\ _ => split end;
      try assumption; try lia; try (destruct i; reflexivity).
    apply nth_In. cbn. lia.
Qed.

Lemma formatBytes_scales_witness :
  ~ 1536 == 0 /\
  exists (v : Q) (i : nat),
    v * inject_Z (1024 ^ Z.of_nat i) == 1536 /\
    unit (formatBytes 1536) = nth i units "".
Proof.
  split.
  - apply Qeq_bool_neq. reflexivity.
  - destruct (proj2 (formatBytes_scales 1536)) as [v [i [_ [Hv [_ [_ [Hu _]]]]]]].
    + apply Qeq_bool_neq. reflexivity.
    + exists v, i. split; assumption.
Defined.

(** ** More on the embedded resolution *)

Module DpiMore.
Import Dpi Png Files DpiFacts.
Open Scope Z_scope.

(** X15: both parsers end on every buffer: each loop advances by at
    least the size of a header (12 bytes for a PNG chunk, 2 for a JPEG
    segment), so it runs fewer times than the buffer has bytes. *)
Theorem parsers_terminate (dv : DataView) :
  parsePNG_DPI dv <> Diverge /\ parseJPEG_EXIF_DPI dv <> Diverge.
Proof.
  split; [apply parsePNG_DPI_terminates | apply parseJPEG_EXIF_DPI_terminates].
Qed.

Lemma bytesAt_start (dv : DataView) (n : nat) :
  Z.of_nat n <= byteLength dv ->
  bytesAt dv 0 n = Return (map byteValue (firstn n dv)).
Proof.
  intros H. unfold bytesAt.
  destruct (Z.leb_spec (0 + Z.of_nat n) (byteLength dv)); [|lia].
  reflexivity.
Qed.

(** X16: a buffer shorter than 24 bytes, or one that does not start with
    the PNG signature, gives [null] from the PNG parser, and it throws
    nothing. *)
Theorem parsePNG_DPI_other_file (dv : DataView) :
  byteLength dv < 24 \/ ~ startsWith dv PNG_SIGNATURE ->
  parsePNG_DPI dv = Return None.
Proof.
  intros H. unfold parsePNG_DPI.
  destruct (Z.ltb_spec (byteLength dv) 24) as [|Hlen]; [reflexivity|].
  destruct H as [H|H]; [lia|].
  rewrite bytesAt_start by (cbn; lia). cbn [bind].
  destruct (eqList _ PNG_SIGNATURE) eqn:E; [|reflexivity].
  apply eqList_true in E. contradiction.
Qed.

Lemma parsePNG_DPI_other_file_witness :
  (byteLength gif < 24 \/ ~ startsWith gif PNG_SIGNATURE) /\
  parsePNG_DPI gif = Return None.
Proof.
  assert (H : byteLength gif < 24 \/ ~ startsWith gif PNG_SIGNATURE).
  { right. unfold startsWith. vm_compute. discriminate. }
  split; [exact H | apply (parsePNG_DPI_other_file gif H)].
Defined.

Lemma pngChunks_none (dv : DataView) :
  forall offset,
    chunksWithoutPhys dv offset ->
    forall fuel,
      (1 <= fuel)%nat ->
      byteLength dv - offset <= Z.of_nat fuel + 7 ->
      pngChunks fuel dv offset = Return None.
Proof.
  intros offset Hwalk.
  induction Hwalk as [offset Hout|offset len type Hin Hhead Hno _ IH];
    intros [|fuel] Hfuel Hroom; try lia.
  - now apply pngChunks_done.
  - rewrite pngChunks_step by exact Hin.
    destruct (chunkHeader_cases dv offset) as [E|[len' [type' [E Hpos]]]];
      rewrite E in Hhead; [discriminate|].
    injection Hhead as -> ->.
    rewrite E. cbn [bind fst snd].
    destruct (eqList type pHYs && (9 <=? len)) eqn:C.
    + exfalso. apply Hno. apply andb_true_iff in C. destruct C as [C1 C2].
      split; [now apply eqList_true | lia].
    + apply IH; lia.
Qed.

(** X17: a PNG buffer whose chunks include no pHYs chunk of length 9 or
    more gives [null]: no metadata found. *)
Theorem parsePNG_DPI_without_pHYs (dv : DataView) :
  24 <= byteLength dv ->
  startsWith dv PNG_SIGNATURE ->
  chunksWithoutPhys dv 8 ->
  parsePNG_DPI dv = Return None.
Proof.
  intros Hlen Hsig Hwalk. unfold parsePNG_DPI.
  destruct (Z.ltb_spec (byteLength dv) 24); [lia|].
  rewrite bytesAt_start by (cbn; lia). cbn [bind].
  unfold startsWith in Hsig.
  change (List.length PNG_SIGNATURE) with 8%nat in Hsig. rewrite Hsig.
  replace (eqList PNG_SIGNATURE PNG_SIGNATURE) with true
    by (symmetry; now apply eqList_true).
  cbn [negb].
  apply pngChunks_none; [exact Hwalk | |]; unfold byteLength in *; lia.
Qed.

Lemma parsePNG_DPI_without_pHYs_witness :
  (24 <= byteLength pngWithoutPhys /\
   startsWith pngWithoutPhys PNG_SIGNATURE /\
   chunksWithoutPhys pngWithoutPhys 8) /\
  parsePNG_DPI pngWithoutPhys = Return None.
Proof.
  assert (Hwalk : chunksWithoutPhys pngWithoutPhys 8).
  { apply (chunks_skip _ 8 13 [73; 72; 68; 82]);
      [reflexivity | reflexivity | intros [E _]; discriminate E |].
    apply (chunks_skip _ 33 2 [73; 68; 65; 84]);
      [reflexivity | reflexivity | intros [E _]; discriminate E |].
    apply (chunks_skip _ 47 0 [73; 69; 78; 68]);
      [reflexivity | reflexivity | intros [E _]; discriminate E |].
    apply chunks_end. vm_compute. discriminate. }
  split.
  - split; [vm_compute; discriminate | split; [reflexivity | exact Hwalk]].
  - apply parsePNG_DPI_without_pHYs;
      [vm_compute; discriminate | reflexivity | exact Hwalk].
Defined.

Lemma firstLongPhys_after (dv : DataView) (offset p : Z) :
  firstLongPhys dv offset p -> offset <= p.
Proof.
  induction 1 as [|offset len type p _ Hhead _ _ IH]; [lia|].
  destruct (chunkHeader_cases dv offset) as [E|[len' [type' [E Hlen]]]];
    rewrite E in Hhead; [discriminate|].
  injection Hhead as -> ->. lia.
Qed.

Lemma pngChunks_finds_long (dv : DataView)
    (p len pxPerUnitX pxPerUnitY unit : Z) :
  chunkHeader dv p = Return (len, pHYs) ->
  9 <= len ->
  getUint32 dv (p + 8) false = Return pxPerUnitX ->
  getUint32 dv (p + 12) false = Return pxPerUnitY ->
  getUint8 dv (p + 16) = Return unit ->
  forall offset,
    firstLongPhys dv offset p ->
    forall fuel,
      (1 <= fuel)%nat ->
      byteLength dv - offset <= Z.of_nat fuel + 7 ->
      pngChunks fuel dv offset
        = Return (Some (physText pxPerUnitX pxPerUnitY unit)).
Proof.
  intros Hhead Hlen Hx Hy Hu offset Hwalk.
  induction Hwalk
    as [offset len0 Hin _ _|offset len0 type p Hin Hskip Htype _ IH];
    intros [|fuel] Hfuel Hroom; try lia.
  - rewrite pngChunks_step by exact Hin.
    rewrite Hhead. cbn [bind fst snd].
    replace (eqList pHYs pHYs && (9 <=? len)) with true.
    + rewrite Hx, Hy, Hu. reflexivity.
    + symmetry. apply andb_true_iff. split; [now apply eqList_true | lia].
  - rewrite pngChunks_step by exact Hin.
    destruct (chunkHeader_cases dv offset) as [E|[len' [type' [E Hpos]]]];
      rewrite E in Hskip; [discriminate|].
    injection Hskip as -> ->.
    rewrite E. cbn [bind fst snd].
    destruct (eqList type pHYs && (9 <=? len0)) eqn:C.
    + exfalso. apply Htype. apply andb_true_iff in C. destruct C as [C1 C2].
      split; [now apply eqList_true | lia].
    + apply IH; try assumption; lia.
Qed.

(** X18: a pHYs chunk shorter than 9 bytes is passed over like any other
    chunk: the parser reports the first pHYs chunk of length 9 or more,
    "unknown" if its unit is not 1 or one of its two values is 0 and the
    rounded values otherwise. *)
Theorem parsePNG_DPI_skips_short_pHYs (dv : DataView)
    (p len pxPerUnitX pxPerUnitY unit : Z) :
  startsWith dv PNG_SIGNATURE ->
  firstLongPhys dv 8 p ->
  chunkHeader dv p = Return (len, pHYs) ->
  9 <= len ->
  getUint32 dv (p + 8) false = Return pxPerUnitX ->
  getUint32 dv (p + 12) false = Return pxPerUnitY ->
  getUint8 dv (p + 16) = Return unit ->
  parsePNG_DPI dv = Return (Some (physText pxPerUnitX pxPerUnitY unit)).
Proof.
  intros Hsig Hwalk Hhead Hlen Hx Hy Hu.
  pose proof (firstLongPhys_after dv 8 p Hwalk) as Hp.
  pose proof (getUint8_inside dv (p + 16) unit Hu) as [_ Hend].
  unfold parsePNG_DPI.
  destruct (Z.ltb_spec (byteLength dv) 24) as [|_]; [lia|].
  rewrite bytesAt_start by (cbn; lia). cbn [bind].
  unfold startsWith in Hsig.
  change (List.length PNG_SIGNATURE) with 8%nat in Hsig. rewrite Hsig.
  replace (eqList PNG_SIGNATURE PNG_SIGNATURE) with true
    by (symmetry; now apply eqList_true).
  cbn [negb].
  apply (pngChunks_finds_long dv p len); try assumption;
    unfold byteLength in *; lia.
Qed.

Lemma parsePNG_DPI_skips_short_pHYs_witness :
  (startsWith pngWithShortPhys PNG_SIGNATURE /\
   firstLongPhys pngWithShortPhys 8 24 /\
   chunkHeader pngWithShortPhys 8 = Return (4, pHYs) /\
   chunkHeader pngWithShortPhys 24 = Return (9, pHYs) /\
   9 <= 9 /\
   getUint32 pngWithShortPhys (24 + 8) false = Return 3780 /\
   getUint32 pngWithShortPhys (24 + 12) false = Return 3780 /\
   getUint8 pngWithShortPhys (24 + 16) = Return 1) /\
  parsePNG_DPI pngWithShortPhys = Return (Some (DPI 96 96)).
Proof.
  assert (Hwalk : firstLongPhys pngWithShortPhys 8 24).
  { apply (long_later _ 8 4 pHYs 24);
      [reflexivity | reflexivity | intros [_ H]; lia |].
    apply (long_here _ 24 9); [reflexivity | reflexivity | lia]. }
  split.
  - repeat split; try reflexivity; try exact Hwalk; lia.
  - apply (parsePNG_DPI_skips_short_pHYs pngWithShortPhys 24 9 3780 3780 1);
      try reflexivity; try exact Hwalk; lia.
Defined.

(** *** The JPEG parser *)

Lemma ifdEntries_cases (dv : DataView) (little : bool)
    (tiffOffset ifd0Offset : Z) (count : nat) (i : Z) (r : resolution) :
  ifdEntries dv little tiffOffset ifd0Offset count i r = Throw RangeError \/
  exists r', ifdEntries dv little tiffOffset ifd0Offset count i r = Return r'.
Proof.
  pose proof (ifdEntries_returns_or_throws dv little tiffOffset ifd0Offset
                count i r) as H.
  destruct (ifdEntries dv little tiffOffset ifd0Offset count i r) as [r'|[]|].
  - right. now exists r'.
  - left. reflexivity.
  - contradiction.
Qed.

Lemma exifBlock_text (dv : DataView) (exifStart : Z) (text : info) :
  exifBlock dv exifStart = Return (Some text) ->
  exists dpiX dpiY, text = DPI dpiX dpiY.
Proof.
  unfold exifBlock. repeat next_read; try discriminate.
  match goal with
  | |- context [ifdEntries ?a ?b ?c ?d ?e ?f ?g] =>
      destruct (ifdEntries_cases a b c d e f g) as [->|[r' ->]]
  end; cbn [bind]; [discriminate|].
  repeat match goal with
         | |- context [if ?c then _ else _] => destruct c
         end;
    intros [= <-]; eexists _, _; reflexivity.
Qed.

Lemma jpegMarkers_text (dv : DataView) (fuel : nat) :
  forall pos text,
    jpegMarkers fuel dv pos = Return (Some text) ->
    exists dpiX dpiY, text = DPI dpiX dpiY.
Proof.
  induction fuel as [|fuel IH]; intros pos text; cbn [jpegMarkers].
  - discriminate.
  - destruct (pos + 4 <? byteLength dv); [|discriminate].
    pose proof (exifBlock_text dv (pos + 4)) as Hexif.
    repeat next_read; try discriminate;
      repeat match goal with
             | |- context [if ?c then _ else _] => destruct c
             end;
      try discriminate; try apply IH.
    destruct (exifBlock dv (pos + 4)) as [[t|]| |];
      try discriminate; try apply IH.
    intros [= <-]. now apply Hexif.
Qed.

(** X19: the JPEG parser never answers "unknown": what it returns is
    [null] or a text with two DPI numbers. *)
Theorem parseJPEG_EXIF_DPI_text (dv : DataView) (text : info) :
  parseJPEG_EXIF_DPI dv = Return (Some text) ->
  exists dpiX dpiY, text = DPI dpiX dpiY.
Proof.
  unfold parseJPEG_EXIF_DPI.
  destruct (getUint8_cases dv 0) as [->|[b0 [-> _]]]; cbn [bind];
    [discriminate|].
  destruct (negb (b0 =? 255)); [discriminate|].
  destruct (getUint8_cases dv 1) as [->|[b1 [-> _]]]; cbn [bind];
    [discriminate|].
  destruct (negb (b1 =? 216)); [discriminate|].
  apply jpegMarkers_text.
Qed.

Lemma parseJPEG_EXIF_DPI_text_witness :
  parseJPEG_EXIF_DPI jpegWithExif = Return (Some (DPI 300 300)) /\
  exists dpiX dpiY, DPI 300 300 = DPI dpiX dpiY.
Proof.
  split.
  - reflexivity.
  - apply (parseJPEG_EXIF_DPI_text jpegWithExif). reflexivity.
Defined.

Lemma getUint8_first (b0 : Byte.byte) (rest : DataView) :
  getUint8 (b0 :: rest) 0 = Return (byteValue b0).
Proof.
  unfold getUint8, bytesAt, byteLength.
  destruct (Z.leb_spec (0 + Z.of_nat 1) (Z.of_nat (List.length (b0 :: rest))))
    as [_|H]; [|cbn [List.length] in H; lia].
  reflexivity.
Qed.

Lemma getUint8_second (b0 b1 : Byte.byte) (rest : DataView) :
  getUint8 (b0 :: b1 :: rest) 1 = Return (byteValue b1).
Proof.
  unfold getUint8, bytesAt, byteLength.
  destruct (Z.leb_spec (1 + Z.of_nat 1)
              (Z.of_nat (List.length (b0 :: b1 :: rest))))
    as [_|H]; [|cbn [List.length] in H; lia].
  reflexivity.
Qed.

(** X20: a file of at least two bytes that starts neither with the PNG
    signature nor with the JPEG marker FF D8 makes both parsers return
    [null], and the DPI shown for it is "unknown". *)
Theorem dpiInfo_other_file (dv : DataView) :
  2 <= byteLength dv ->
  ~ startsWith dv PNG_SIGNATURE ->
  ~ startsWith dv [255; 216] ->
  parsePNG_DPI dv = Return None /\
  parseJPEG_EXIF_DPI dv = Return None /\
  dpiInfo dv = Return Unknown.
Proof.
  intros Hlen Hpng Hjpeg.
  assert (P : parsePNG_DPI dv = Return None).
  { unfold parsePNG_DPI.
    destruct (Z.ltb_spec (byteLength dv) 24) as [|Hlong]; [reflexivity|].
    rewrite bytesAt_start by (cbn; lia). cbn [bind].
    destruct (eqList _ PNG_SIGNATURE) eqn:E; [|reflexivity].
    apply eqList_true in E. contradiction. }
  assert (J : parseJPEG_EXIF_DPI dv = Return None).
  { destruct dv as [|b0 [|b1 rest]];
      try (unfold byteLength in Hlen; cbn [List.length] in Hlen; lia).
    unfold parseJPEG_EXIF_DPI.
    rewrite getUint8_first, getUint8_second. cbn [bind].
    destruct (Z.eqb_spec (byteValue b0) 255) as [E0|]; [|reflexivity].
    destruct (Z.eqb_spec (byteValue b1) 216) as [E1|]; [|reflexivity].
    exfalso. apply Hjpeg. unfold startsWith.
    cbn [List.length firstn map]. now rewrite E0, E1. }
  split; [exact P | split; [exact J |]].
  unfold dpiInfo. rewrite P, J. reflexivity.
Qed.

Lemma dpiInfo_other_file_witness :
  (2 <= byteLength gif /\ ~ startsWith gif PNG_SIGNATURE /\
   ~ startsWith gif [255; 216]) /\
  dpiInfo gif = Return Unknown.
Proof.
  assert (H1 : ~ startsWith gif PNG_SIGNATURE)
    by (unfold startsWith; vm_compute; discriminate).
  assert (H2 : ~ startsWith gif [255; 216])
    by (unfold startsWith; vm_compute; discriminate).
  assert (H0 : 2 <= byteLength gif) by (vm_compute; discriminate).
  split.
  - split; [exact H0 | split; [exact H1 | exact H2]].
  - apply (dpiInfo_other_file gif H0 H1 H2).
Defined.
End DpiMore.

(** ** The resolution in an Exif block *)

Module ExifFacts.
Import Dpi Png Files DpiFacts.
Open Scope Z_scope.




(** The number printed is the rounding of the double: 1075/127 per
    centimetre is 21.5 dots per inch in exact arithmetic, and the product of
    the doubles is below it. *)
Lemma exifText_rounds_the_double :
  exifText 1075 127 300 1 3 = Some (DPI 21 762) /\
  exifText 300 1 300 1 2 = Some (DPI 300 300) /\
  exifText 72 1 72 1 0 = Some (DPI 72 72) /\
  exifText 0 1 300 1 2 = None /\
  exifText 300 0 300 1 2 = None.
Proof. repeat split; vm_compute; reflexivity. Qed.

(** 2.54 is the correctly rounded quotient of 254 and 100. *)
Lemma cmPerInch_literal :
  cmPerInch = PrimFloat.div (Float64.ofInteger 254) (Float64.ofInteger 100).
Proof. vm_compute. reflexivity. Qed.
End ExifFacts.
(** ** The end of a drag of the selection *)

(** X22: when the selection fits the stage, the end of a drag puts it at the
    drop point clamped into the stage, x = min(max(nx, 0), stageWidth - width)
    and y = min(max(ny, 0), stageHeight - height), with its size unchanged;
    the zoom and the pan of the image are not touched. *)
Theorem handleRectDragEnd_clamps_drop (st : EditorState) (nx ny : Q) :
  Selection.width (selection st) <= stageWidth st ->
  Selection.height (selection st) <= stageHeight st ->
  let st' := handleRectDragEnd st nx ny in
  Selection.x (selection st')
    == Math_min (Math_max nx 0) (stageWidth st - Selection.width (selection st)) /\
  Selection.y (selection st')
    == Math_min (Math_max ny 0) (stageHeight st - Selection.height (selection st)) /\
  Selection.width (selection st') = Selection.width (selection st) /\
  Selection.height (selection st') = Selection.height (selection st) /\
  imageScale st' = imageScale st /\ imageOffset st' = imageOffset st.
Proof.
  destruct st as [sw sh img sc off [sx sy w h] keep asp].
  cbn [selection stageWidth stageHeight Selection.width Selection.height].
  intros Hw Hh. unfold handleRectDragEnd, clampSelection, setSelection, Math_min, Math_max.
  cbn [selection stageWidth stageHeight imageScale imageOffset
       Selection.x Selection.y Selection.width Selection.height].
  repeat (branch_on_test;
          cbn [Selection.x Selection.y Selection.width Selection.height] in *);
    repeat match goal with |- _ /\ _ => split end; try reflexivity;
    match goal with
    | |- _ == Qmin (Qmax ?n 0) ?m =>
        pose proof (Q.max_spec n 0); pose proof (Q.min_spec (Qmax n 0) m); lra
    end.
Qed.

Lemma handleRectDragEnd_clamps_drop_witness :
  (Selection.width (selection wheelStart) <= stageWidth wheelStart /\
   Selection.height (selection wheelStart) <= stageHeight wheelStart) /\
  Selection.x (selection (handleRectDragEnd wheelStart 700 (-20)))
    == Math_min (Math_max 700 0)
         (stageWidth wheelStart - Selection.width (selection wheelStart)).
Proof.
  split.
  - split; vm_compute; discriminate.
  - apply (handleRectDragEnd_clamps_drop wheelStart 700 (-20));
      vm_compute; discriminate.
Defined.

(** X23: the end of a drag is the same in the two variants of the component:
    the earlier variant places a selection where the later variant places the
    same selection without its rotation, and keeps the rotation. *)
Theorem onDragEnd_variants_agree (st : EditorState) (sel : App.Selection)
    (nx ny : Q) :
  let dropped := App_onDragEnd (stageWidth st) (stageHeight st) sel nx ny in
  withoutRotation dropped
  = selection (handleRectDragEnd (setSelection (withoutRotation sel) st) nx ny) /\
  App.rotation dropped = App.rotation sel.
Proof.
  destruct sel as [sx sy w h r].
  destruct st as [sw sh img sc off s0 keep asp].
  unfold App_onDragEnd, handleRectDragEnd, App.clampSelection, clampSelection,
    setSelection, withoutRotation.
  cbn [selection stageWidth stageHeight
       Selection.x Selection.y Selection.width Selection.height
       App.x App.y App.width App.height App.rotation].
  repeat (branch_on_test;
          cbn [Selection.x Selection.y Selection.width Selection.height
               App.x App.y App.width App.height App.rotation] in *);
    split; reflexivity || lra.
Qed.
(** ** Zooming and exporting *)

Lemma zoomAt_frame (st : EditorState) (mouse : Point.t) (s : Q) :
  let st' := zoomAt st mouse s in
  stageWidth st' = stageWidth st /\ stageHeight st' = stageHeight st /\
  imgElement st' = imgElement st /\ selection st' = selection st /\
  keepRatio st' = keepRatio st /\ aspect st' = aspect st.
Proof. repeat split. Qed.

Lemma zoomEvent_scale (st : EditorState) (ev : ZoomEvent) :
  fromBrowser ev ->
  MIN_ZOOM <= imageScale st <= MAX_ZOOM ->
  let st' := zoomEvent st ev in
  MIN_ZOOM <= imageScale st' <= MAX_ZOOM /\
  stageWidth st' = stageWidth st /\ stageHeight st' = stageHeight st /\
  imgElement st' = imgElement st /\ selection st' = selection st.
Proof.
  intros Hev Hst. destruct ev as [e|v|v]; cbn [zoomEvent fromBrowser] in *.
  - unfold handleWheel.
    destruct (imgElement st) eqn:Ei; [|now rewrite Ei].
    destruct (pointer e); [|now rewrite Ei].
    cbv zeta. rewrite zoomAt_scale. split; [apply clampZoom_range|].
    repeat split. exact Ei.
  - split; [exact Hev|]. repeat split.
  - unfold handleZoomInput. cbv zeta. rewrite zoomAt_scale.
    split; [apply clampZoom_range|]. repeat split.
Qed.

(** X24: whatever sequence of wheel events, slider moves and entries in the
    number field the component receives, a scale between MIN_ZOOM and
    MAX_ZOOM stays between them, and zooming changes neither the stage, the
    image nor the selection. *)
Theorem zoom_stays_in_range (evs : list ZoomEvent) :
  forall st : EditorState,
    Forall fromBrowser evs ->
    MIN_ZOOM <= imageScale st <= MAX_ZOOM ->
    let st' := zoomEvents st evs in
    MIN_ZOOM <= imageScale st' <= MAX_ZOOM /\
    stageWidth st' = stageWidth st /\ stageHeight st' = stageHeight st /\
    imgElement st' = imgElement st /\ selection st' = selection st.
Proof.
  induction evs as [|ev evs IH]; intros st Hevs Hst.
  - cbn. repeat match goal with |- _ /\ _ => split end; try reflexivity; apply Hst.
  - inversion Hevs as [|? ? Hev Hrest]; subst.
    destruct (zoomEvent_scale st ev Hev Hst) as [Hs [Hw [Hh [Hi Hsel]]]].
    destruct (IH (zoomEvent st ev) Hrest Hs) as [Hs' [Hw' [Hh' [Hi' Hsel']]]].
    unfold zoomEvents in *. cbn [fold_left].
    repeat match goal with |- _ /\ _ => split end; try apply Hs'; congruence.
Qed.

Lemma zoom_stays_in_range_witness :
  let evs := [Wheel {| pointer := Some {| Point.x := 400; Point.y := 300 |};
                       deltaY := -100 |};
              Slider 3; NumberInput 7;
              Wheel {| pointer := Some {| Point.x := 0; Point.y := 0 |};
                       deltaY := -100 |}] in
  (Forall fromBrowser evs /\ MIN_ZOOM <= imageScale wheelStart <= MAX_ZOOM) /\
  MIN_ZOOM <= imageScale (zoomEvents wheelStart evs) <= MAX_ZOOM.
Proof.
  cbv zeta.
  assert (Hevs : Forall fromBrowser
            [Wheel {| pointer := Some {| Point.x := 400; Point.y := 300 |};
                      deltaY := -100 |};
             Slider 3; NumberInput 7;
             Wheel {| pointer := Some {| Point.x := 0; Point.y := 0 |};
                      deltaY := -100 |}]).
  { repeat constructor; vm_compute; discriminate. }
  assert (Hst : MIN_ZOOM <= imageScale wheelStart <= MAX_ZOOM).
  { split; vm_compute; discriminate. }
  split; [split; assumption|].
  apply (zoom_stays_in_range _ wheelStart Hevs Hst).
Defined.

Lemma newOffset_compat (st : EditorState) (mouse : Point.t) (c c' : Q) :
  c == c' -> point_eq (newOffset st mouse c) (newOffset st mouse c').
Proof.
  intros E. unfold newOffset, point_eq. cbn [Point.x Point.y].
  split; rewrite E; reflexivity.
Qed.

(** X25: the zoom slider, which stores its value unclamped, does what the
    number field does for every value the slider can report: same scale,
    same offset. *)
Theorem slider_as_number_input (st : EditorState) (v : Q) :
  MIN_ZOOM <= v <= MAX_ZOOM ->
  let a := handleZoomRange st v in
  let b := handleZoomInput st v in
  imageScale a == imageScale b /\
  point_eq (imageOffset a) (imageOffset b) /\
  selection a = selection b /\
  stageWidth a = stageWidth b /\ stageHeight a = stageHeight b /\
  imgElement a = imgElement b.
Proof.
  intros Hv. cbv zeta.
  assert (E : v == clampZoom v) by (symmetry; apply clamp_fixed; exact Hv).
  split; [exact E|]. split; [|repeat split].
  unfold handleZoomRange, handleZoomInput, zoomAt. cbv zeta.
  cbn [imageOffset setImageOffset].
  apply clampOffset_compat, newOffset_compat, E.
Qed.

Lemma slider_as_number_input_witness :
  (MIN_ZOOM <= 2 <= MAX_ZOOM) /\
  imageScale (handleZoomRange wheelStart 2)
  == imageScale (handleZoomInput wheelStart 2).
Proof.
  assert (H : MIN_ZOOM <= 2 <= MAX_ZOOM) by (split; vm_compute; discriminate).
  split; [exact H | apply (slider_as_number_input wheelStart 2 H)].
Defined.

(** X26: when the selection lies inside the displayed image, the rectangle
    of the source image handed to drawImage lies inside the source image:
    0 <= sx, sx + sWidth <= naturalWidth, 0 <= sy and
    sy + sHeight <= naturalHeight. *)
Theorem exportCropped_inside_image (st : EditorState) (img : HTMLImageElement) :
  imgElement st = Some img ->
  0 < naturalWidth img -> 0 <= naturalHeight img ->
  0 < displayedImageWidth st ->
  imageX st <= Selection.x (selection st) ->
  Selection.x (selection st) + Selection.width (selection st)
    <= imageX st + displayedImageWidth st ->
  imageY st <= Selection.y (selection st) ->
  Selection.y (selection st) + Selection.height (selection st)
    <= imageY st + displayedImageHeight st ->
  exists e,
    exportCropped st true = Some e /\
    0 <= sx e /\ sx e + sWidth e <= naturalWidth img /\
    0 <= sy e /\ sy e + sHeight e <= naturalHeight img.
Proof.
  intros loaded Hnat Hnh Hshown Hl Hr Ht Hb.
  unfold exportCropped. rewrite loaded. cbn [negb].
  eexists. split; [reflexivity|].
  cbn [sx sy sWidth sHeight].
  set (k := naturalWidth img / displayedImageWidth st).
  assert (Hk : 0 < k).
  { unfold k. apply Qlt_shift_div_l; [exact Hshown|]. lra. }
  assert (Ew : displayedImageWidth st * k == naturalWidth img).
  { unfold k. field. lra. }
  assert (Eh : displayedImageHeight st * k == naturalHeight img).
  { unfold k, displayedImageHeight. rewrite loaded. field. split; lra. }
  set (x := Selection.x (selection st)) in *.
  set (y := Selection.y (selection st)) in *.
  set (w := Selection.width (selection st)) in *.
  set (h := Selection.height (selection st)) in *.
  assert (P1 : 0 <= (x - imageX st) * k)
    by (apply Qmult_le_0_compat; lra).
  assert (P2 : 0 <= (imageX st + displayedImageWidth st - (x + w)) * k)
    by (apply Qmult_le_0_compat; lra).
  assert (P3 : 0 <= (y - imageY st) * k)
    by (apply Qmult_le_0_compat; lra).
  assert (P4 : 0 <= (imageY st + displayedImageHeight st - (y + h)) * k)
    by (apply Qmult_le_0_compat; lra).
  clearbody k x y w h.
  repeat match goal with |- _ /\ _ => split end; lra.
Qed.

Lemma exportCropped_inside_image_witness :
  (imgElement exportExample = Some {| naturalWidth := 1600; naturalHeight := 1200 |} /\
   0 < 1600 /\ 0 <= 1200 /\ 0 < displayedImageWidth exportExample /\
   imageX exportExample <= Selection.x (selection exportExample) /\
   Selection.x (selection exportExample) + Selection.width (selection exportExample)
     <= imageX exportExample + displayedImageWidth exportExample /\
   imageY exportExample <= Selection.y (selection exportExample) /\
   Selection.y (selection exportExample) + Selection.height (selection exportExample)
     <= imageY exportExample + displayedImageHeight exportExample) /\
  exists e,
    exportCropped exportExample true = Some e /\
    0 <= sx e /\ sx e + sWidth e <= 1600 /\
    0 <= sy e /\ sy e + sHeight e <= 1200.
Proof.
  split.
  - repeat match goal with |- _ /\ _ => split end;
      try reflexivity; vm_compute; discriminate.
  - apply (exportCropped_inside_image exportExample
             {| naturalWidth := 1600; naturalHeight := 1200 |});
      try reflexivity; vm_compute; discriminate.
Defined.
